(** * The Monkey evaluator ([evaluator/evaluator.go]) in Rocq

    A shallow embedding of the tree-walking evaluator.  Go pointers to
    runtime objects are modelled by an address carried inside every object,
    so that the pointer comparisons of the source ([switch obj { case NULL: ],
    [left == right]) can be written out.  The environment that Go passes
    around as [*object.Environment] and the allocator live in an explicit
    state; a Go run-time panic is an outcome of its own. *)

From Stdlib Require Import ZArith String Lia.
From stdpp Require Import base option list gmap strings.

Set Warnings "-register-all".
Local Open Scope string_scope.

(** ** Package [token] *)

Module token.

(** Modelled from the spec: the operator lexemes of package [token], which is
    not part of the sources at hand; the spec writes the operators as
    [+ - * / == != < >] and the two prefix operators as [!] and [-]. *)
Definition PLUS : string := "+".
Definition MINUS : string := "-".
Definition BANG : string := "!".
Definition ASTERISK : string := "*".
Definition SLASH : string := "/".
Definition LT : string := "<".
Definition GT : string := ">".
Definition EQ : string := "==".
Definition NOT_EQ : string := "!=".

End token.

(** ** Package [object] *)

Module object.

Definition ObjectType := string.

(** Modelled from the spec: the closed set of type tags of package [object]
    (INTEGER, BOOLEAN, NULL, RETURN_VALUE, ERROR). *)
Definition INTEGER_OBJ : ObjectType := "INTEGER".
Definition BOOLEAN_OBJ : ObjectType := "BOOLEAN".
Definition NULL_OBJ : ObjectType := "NULL".
Definition RETURN_VALUE_OBJ : ObjectType := "RETURN_VALUE".
Definition ERROR_OBJ : ObjectType := "ERROR".

(** Modelled from the spec: the runtime objects of package [object].  Every
    object is reached through a pointer in Go; [ptr] is the address of the
    allocation.  A value of the interface type [object.Object] is an
    [option Object], [None] being Go's [nil]. *)
Inductive Object : Type :=
| Integer (ptr : nat) (Value : Z)
| Boolean (ptr : nat) (Value : bool)
| Null (ptr : nat)
| ReturnValue (ptr : nat) (Value : option Object)
| Error (ptr : nat) (Message : string).

Definition Type_ (o : Object) : ObjectType :=
  match o with
  | Integer _ _ => INTEGER_OBJ
  | Boolean _ _ => BOOLEAN_OBJ
  | Null _ => NULL_OBJ
  | ReturnValue _ _ => RETURN_VALUE_OBJ
  | Error _ _ => ERROR_OBJ
  end.

Definition ptr_of (o : Object) : nat :=
  match o with
  | Integer p _ | Boolean p _ | Null p | ReturnValue p _ | Error p _ => p
  end.

(** Go's [==] on two interface values that hold pointers: both [nil], or the
    same dynamic type and the same address.  The contents are not looked
    at. *)
Definition same_object (a b : option Object) : bool :=
  match a, b with
  | None, None => true
  | Some x, Some y => String.eqb (Type_ x) (Type_ y) && Nat.eqb (ptr_of x) (ptr_of y)
  | _, _ => false
  end.

(** Modelled from the spec: the flat name-to-object store, with [Set] that
    creates or overwrites a binding and [Get] that reports whether the name
    is bound.  A binding may hold [nil]. *)
Record Environment : Type := mkEnvironment { store : gmap string (option Object) }.

Definition Get (env : Environment) (name : string) : option Object * bool :=
  match store env !! name with
  | Some val => (val, true)
  | None => (None, false)
  end.

Definition Set_ (env : Environment) (name : string) (val : option Object) : Environment :=
  mkEnvironment (<[name := val]> (store env)).

End object.

(** ** Package [ast] *)

Module ast.

(** Modelled from the spec: the node kinds of package [ast].  The fields that
    Go types as [*ast.BlockStatement] (the two branches of an [if]) are kept
    as the statement list of that block, the alternative being absent when
    the pointer is [nil]; [Name] of a let statement is the identifier's
    name.  The value of an integer literal is an [int64] in Go: a tree that
    the parser built holds values within [-2^63, 2^63) there. *)
Inductive Node : Type :=
| Program (Statements : list Node)
| BlockStatement (Statements : list Node)
| ExpressionStatement (Expression : Node)
| IntegerLiteral (Value : Z)
| Boolean (Value : bool)
| PrefixExpression (Operator : string) (Right : Node)
| IfExpression (Condition : Node) (Consequence : list Node) (Alternative : option (list Node))
| InfixExpression (Left : Node) (Operator : string) (Right : Node)
| ReturnStatement (ReturnValue : Node)
| LetStatement (Name : string) (Value : Node)
| Identifier (Value : string).

(** Induction on nodes that reaches the nodes inside the statement lists. *)
Section Node_induction.

Variable P : Node -> Prop.

Hypothesis HProgram : forall Statements, Forall P Statements -> P (Program Statements).
Hypothesis HBlockStatement :
  forall Statements, Forall P Statements -> P (BlockStatement Statements).
Hypothesis HExpressionStatement :
  forall Expression, P Expression -> P (ExpressionStatement Expression).
Hypothesis HIntegerLiteral : forall Value, P (IntegerLiteral Value).
Hypothesis HBoolean : forall Value, P (Boolean Value).
Hypothesis HPrefixExpression :
  forall Operator Right, P Right -> P (PrefixExpression Operator Right).
Hypothesis HIfExpression :
  forall Condition Consequence Alternative,
    P Condition -> Forall P Consequence ->
    match Alternative with
    | Some alternative => Forall P alternative
    | None => True
    end ->
    P (IfExpression Condition Consequence Alternative).
Hypothesis HInfixExpression :
  forall Left Operator Right, P Left -> P Right -> P (InfixExpression Left Operator Right).
Hypothesis HReturnStatement :
  forall ReturnValue, P ReturnValue -> P (ReturnStatement ReturnValue).
Hypothesis HLetStatement : forall Name Value, P Value -> P (LetStatement Name Value).
Hypothesis HIdentifier : forall Value, P (Identifier Value).

Fixpoint Node_nested_ind (node : Node) : P node :=
  let all :=
    fix all (nodes : list Node) : Forall P nodes :=
      match nodes with
      | [] => @List.Forall_nil _ P
      | n :: rest => @List.Forall_cons _ P n rest (Node_nested_ind n) (all rest)
      end in
  match node with
  | Program Statements => HProgram Statements (all Statements)
  | BlockStatement Statements => HBlockStatement Statements (all Statements)
  | ExpressionStatement Expression =>
      HExpressionStatement Expression (Node_nested_ind Expression)
  | IntegerLiteral Value => HIntegerLiteral Value
  | Boolean Value => HBoolean Value
  | PrefixExpression Operator Right =>
      HPrefixExpression Operator Right (Node_nested_ind Right)
  | IfExpression Condition Consequence Alternative =>
      HIfExpression Condition Consequence Alternative
        (Node_nested_ind Condition) (all Consequence)
        match Alternative with
        | Some alternative => all alternative
        | None => I
        end
  | InfixExpression Left Operator Right =>
      HInfixExpression Left Operator Right (Node_nested_ind Left) (Node_nested_ind Right)
  | ReturnStatement ReturnValue => HReturnStatement ReturnValue (Node_nested_ind ReturnValue)
  | LetStatement Name Value => HLetStatement Name Value (Node_nested_ind Value)
  | Identifier Value => HIdentifier Value
  end.

End Node_induction.

End ast.

(** ** 64-bit integers *)

(** Go's [int64]: the value of an arithmetic operation is the exact result
    reduced into [-2^63, 2^63). *)
Definition int64_min : Z := (- 2 ^ 63)%Z.
Definition int64_max : Z := (2 ^ 63 - 1)%Z.

Definition is_int64 (z : Z) : Prop := (int64_min <= z <= int64_max)%Z.

Definition wrap64 (z : Z) : Z := ((z + 2 ^ 63) mod 2 ^ 64 - 2 ^ 63)%Z.

(** ** State and outcomes *)

(** [env] is the environment behind the pointer handed to [Eval]; [next] is
    the first address the allocator has not handed out yet. *)
Record State : Type := mkState { env : object.Environment; next : nat }.

Inductive Res (A : Type) : Type :=
| Ok (a : A) (st : State)
| Panic.
Arguments Ok {A} a st.
Arguments Panic {A}.

Definition M (A : Type) : Type := State -> Res A.

#[global] Instance M_ret : MRet M := fun A a st => Ok a st.
#[global] Instance M_bind : MBind M := fun A B f m st =>
  match m st with
  | Ok a st' => f a st'
  | Panic => Panic
  end.

Definition panic {A} : M A := fun _ => Panic.

(** [&T{...}]: a fresh allocation. *)
Definition new (mk : nat -> object.Object) : M (option object.Object) :=
  fun st => Ok (Some (mk (next st))) (mkState (env st) (S (next st))).

Definition env_Get (name : string) : M (option object.Object * bool) :=
  fun st => Ok (object.Get (env st) name) st.

Definition env_Set (name : string) (val : option object.Object) : M unit :=
  fun st => Ok tt (mkState (object.Set_ (env st) name val) (next st)).

(** ** Package [evaluator] *)

(** The three package-level objects, allocated once before any evaluation. *)
Definition TRUE : object.Object := object.Boolean 0 true.
Definition FALSE : object.Object := object.Boolean 1 false.
Definition NULL : object.Object := object.Null 2.

(** A state in which only the three singletons have been allocated and
    nothing is bound. *)
Definition initial_state : State := mkState (object.mkEnvironment ∅) 3.

Definition newError (message : string) : M (option object.Object) :=
  new (fun p => object.Error p message).

Definition isError (obj : option object.Object) : bool :=
  match obj with
  | Some o => String.eqb (object.Type_ o) object.ERROR_OBJ
  | None => false
  end.

Definition nativeBoolToBooleanObject (input : bool) : option object.Object :=
  if input then Some TRUE else Some FALSE.

Definition isTruthy (obj : option object.Object) : bool :=
  if object.same_object obj (Some NULL) then false
  else if object.same_object obj (Some TRUE) then true
  else if object.same_object obj (Some FALSE) then false
  else true.

Definition evalBangOperator (o : option object.Object) : option object.Object :=
  if object.same_object o (Some TRUE) then Some FALSE
  else if object.same_object o (Some FALSE) then Some TRUE
  else if object.same_object o (Some NULL) then Some TRUE
  else Some FALSE.

(** [o.Type()] on a [nil] interface panics. *)
Definition evalMinusPrefixOperator (o : option object.Object) : M (option object.Object) :=
  match o with
  | None => panic
  | Some obj =>
      if negb (String.eqb (object.Type_ obj) object.INTEGER_OBJ)
      then newError ("unknown operator: " +:+ token.MINUS +:+ object.Type_ obj)
      else match obj with
           | object.Integer _ Value => new (fun p => object.Integer p (wrap64 (- Value)))
           | _ => panic
           end
  end.

Definition evalPrefixExpression (operator : string) (o : option object.Object)
  : M (option object.Object) :=
  if String.eqb operator token.BANG then mret (evalBangOperator o)
  else if String.eqb operator token.MINUS then evalMinusPrefixOperator o
  else match o with
       | None => panic
       | Some obj => newError ("unknown operator: " +:+ operator +:+ object.Type_ obj)
       end.

(** [left] and [right] are the [Value] fields of the two [*object.Integer]
    operands.  Go's [/] truncates toward zero and panics on a zero divisor. *)
Definition evalIntegerInfixExpression (left right : Z) (operator : string)
  : M (option object.Object) :=
  if String.eqb operator token.PLUS then
    new (fun p => object.Integer p (wrap64 (left + right)))
  else if String.eqb operator token.MINUS then
    new (fun p => object.Integer p (wrap64 (left - right)))
  else if String.eqb operator token.ASTERISK then
    new (fun p => object.Integer p (wrap64 (left * right)))
  else if String.eqb operator token.SLASH then
    if (right =? 0)%Z then panic
    else new (fun p => object.Integer p (wrap64 (Z.quot left right)))
  else if String.eqb operator token.EQ then
    mret (nativeBoolToBooleanObject (left =? right)%Z)
  else if String.eqb operator token.NOT_EQ then
    mret (nativeBoolToBooleanObject (negb (left =? right)%Z))
  else if String.eqb operator token.LT then
    mret (nativeBoolToBooleanObject (left <? right)%Z)
  else if String.eqb operator token.GT then
    mret (nativeBoolToBooleanObject (left >? right)%Z)
  else
    newError ("unknown operator: " +:+ object.INTEGER_OBJ +:+ " " +:+ operator
              +:+ " " +:+ object.INTEGER_OBJ).

Definition evalInfixExpression (left right : option object.Object) (operator : string)
  : M (option object.Object) :=
  match left, right with
  | Some l, Some r =>
      if negb (String.eqb (object.Type_ l) (object.Type_ r)) then
        newError ("type mismatch: " +:+ object.Type_ l +:+ " + " +:+ object.Type_ r)
      else if String.eqb (object.Type_ l) object.INTEGER_OBJ
              && String.eqb (object.Type_ r) object.INTEGER_OBJ then
        match l, r with
        | object.Integer _ leftValue, object.Integer _ rightValue =>
            evalIntegerInfixExpression leftValue rightValue operator
        | _, _ => panic
        end
      else if String.eqb operator token.EQ then
        mret (nativeBoolToBooleanObject (object.same_object left right))
      else if String.eqb operator token.NOT_EQ then
        mret (nativeBoolToBooleanObject (negb (object.same_object left right)))
      else
        newError ("unknown operator: " +:+ object.Type_ l +:+ " " +:+ operator
                  +:+ " " +:+ object.Type_ r)
  | _, _ => panic
  end.

(** The functions that call back into [Eval] take it as their first
    argument; [Eval] below closes the recursion. *)
Section Recursive.

Variable Eval : ast.Node -> M (option object.Object).

(** The [for] loop of [evalBlockStatement]; [result] is the loop
    variable of that name. *)
Fixpoint evalBlockStatement_loop (statements : list ast.Node)
    (result : option object.Object) : M (option object.Object) :=
  match statements with
  | [] => mret result
  | statement :: rest =>
      result ← Eval statement;
      match result with
      | Some r =>
          if String.eqb (object.Type_ r) object.RETURN_VALUE_OBJ
             || String.eqb (object.Type_ r) object.ERROR_OBJ
          then mret result
          else evalBlockStatement_loop rest result
      | None => evalBlockStatement_loop rest result
      end
  end.

Definition evalBlockStatement (statements : list ast.Node) : M (option object.Object) :=
  evalBlockStatement_loop statements None.

(** The [for] loop of [evalProgram], with its type switch. *)
Fixpoint evalProgram_loop (statements : list ast.Node)
    (result : option object.Object) : M (option object.Object) :=
  match statements with
  | [] => mret result
  | statement :: rest =>
      result ← Eval statement;
      match result with
      | Some (object.ReturnValue _ Value) => mret Value
      | Some (object.Error _ _) => mret result
      | _ => evalProgram_loop rest result
      end
  end.

Definition evalProgram (statements : list ast.Node) : M (option object.Object) :=
  evalProgram_loop statements None.

Definition evalIfExpression (Condition : ast.Node) (Consequence : list ast.Node)
    (Alternative : option (list ast.Node)) : M (option object.Object) :=
  condition ← Eval Condition;
  if isTruthy condition then evalBlockStatement Consequence
  else match Alternative with
       | Some alternative => evalBlockStatement alternative
       | None => mret (Some NULL)
       end.

End Recursive.

Fixpoint Eval (node : ast.Node) : M (option object.Object) :=
  match node with
  | ast.Program Statements => evalProgram Eval Statements
  | ast.BlockStatement Statements => evalBlockStatement Eval Statements
  | ast.ExpressionStatement Expression => Eval Expression
  | ast.IntegerLiteral Value => new (fun p => object.Integer p Value)
  | ast.Boolean Value => mret (nativeBoolToBooleanObject Value)
  | ast.PrefixExpression Operator Right =>
      right ← Eval Right;
      if isError right then mret right
      else evalPrefixExpression Operator right
  | ast.IfExpression Condition Consequence Alternative =>
      evalIfExpression Eval Condition Consequence Alternative
  | ast.InfixExpression Left Operator Right =>
      left ← Eval Left;
      if isError left then mret left
      else
        right ← Eval Right;
        if isError right then mret right
        else evalInfixExpression left right Operator
  | ast.ReturnStatement ReturnValue =>
      val ← Eval ReturnValue;
      if isError val then mret val
      else new (fun p => object.ReturnValue p val)
  | ast.LetStatement Name Value =>
      val ← Eval Value;
      if isError val then mret val
      else
        _ ← env_Set Name val;
        mret None
  | ast.Identifier Value =>
      '(val, ok) ← env_Get Value;
      if negb ok then newError ("identifier not found: " +:+ Value)
      else mret val
  end.

(** ** Statement sequences *)

(** The two results on which a statement sequence stops. *)
Definition stops (result : option object.Object) : bool :=
  match result with
  | Some (object.ReturnValue _ _) | Some (object.Error _ _) => true
  | _ => false
  end.

(** [passes statements result st]: the statements are evaluated in order,
    each one in the state its predecessor left, and none of them panics or
    yields a ReturnValue or an Error; the value is the result of the last one
    ([result] when there is none) and the state reached. *)
Fixpoint passes (statements : list ast.Node) (result : option object.Object)
    (st : State) : option (option object.Object * State) :=
  match statements with
  | [] => Some (result, st)
  | statement :: rest =>
      match Eval statement st with
      | Ok r st' => if stops r then None else passes rest r st'
      | Panic => None
      end
  end.

(** Nodes without a let statement anywhere inside. *)
Fixpoint has_let (node : ast.Node) : bool :=
  match node with
  | ast.Program Statements => existsb has_let Statements
  | ast.BlockStatement Statements => existsb has_let Statements
  | ast.ExpressionStatement Expression => has_let Expression
  | ast.IntegerLiteral _ => false
  | ast.Boolean _ => false
  | ast.PrefixExpression _ Right => has_let Right
  | ast.IfExpression Condition Consequence Alternative =>
      has_let Condition || existsb has_let Consequence
      || match Alternative with
         | Some alternative => existsb has_let alternative
         | None => false
         end
  | ast.InfixExpression Left _ Right => has_let Left || has_let Right
  | ast.ReturnStatement ReturnValue => has_let ReturnValue
  | ast.LetStatement _ _ => true
  | ast.Identifier _ => false
  end.

(** The state after one allocation. *)
Definition bump (st : State) : State := mkState (env st) (S (next st)).

(** A computation that leaves the environment as it found it (it may
    allocate). *)
Definition keeps_env {A : Type} (m : M A) : Prop :=
  forall st a st', m st = Ok a st' -> env st' = env st.

(** The operators that [evalIntegerInfixExpression] has a case for. *)
Definition integer_operators : list string :=
  [token.PLUS; token.MINUS; token.ASTERISK; token.SLASH;
   token.EQ; token.NOT_EQ; token.LT; token.GT].

(** What [evalProgram] makes of the result of a statement sequence: the
    inner value of a ReturnValue, anything else as it is. *)
Definition unwrap_return (outcome : Res (option object.Object))
  : Res (option object.Object) :=
  match outcome with
  | Ok (Some (object.ReturnValue _ Value)) st => Ok Value st
  | _ => outcome
  end.

(** A computation that, started in a state where [I] holds, ends (when it
    does not panic) in a state where [I] holds, with a value in [V]. *)
Definition establishes (I : State -> Prop) (V : option object.Object -> Prop)
    (m : M (option object.Object)) : Prop :=
  forall st v st', I st -> m st = Ok v st' -> I st' /\ V v.

(** Objects in which every Boolean is the TRUE or the FALSE singleton and
    every Null is the NULL singleton, also inside a ReturnValue. *)
Fixpoint canonical (o : object.Object) : Prop :=
  match o with
  | object.Boolean _ _ => o = TRUE \/ o = FALSE
  | object.Null _ => o = NULL
  | object.ReturnValue _ (Some inner) => canonical inner
  | _ => True
  end.

Definition canonical_value (v : option object.Object) : Prop :=
  match v with
  | Some o => canonical o
  | None => True
  end.

Definition canonical_env (e : object.Environment) : Prop :=
  forall name val, object.store e !! name = Some val -> canonical_value val.

(** Objects that hold no [nil]: a ReturnValue wraps an object, which holds no
    [nil] either. *)
Fixpoint solid (o : object.Object) : Prop :=
  match o with
  | object.ReturnValue _ None => False
  | object.ReturnValue _ (Some inner) => solid inner
  | _ => True
  end.

Definition solid_value (v : option object.Object) : Prop :=
  match v with
  | Some o => solid o
  | None => False
  end.

Definition solid_env (e : object.Environment) : Prop :=
  forall name val, object.store e !! name = Some val -> solid_value val.

Definition is_let (node : ast.Node) : bool :=
  match node with
  | ast.LetStatement _ _ => true
  | _ => false
  end.

(** The last statement of the list is not a let statement; [otherwise]
    answers for the empty list. *)
Fixpoint ends_with_value (statements : list ast.Node) (otherwise : bool) : bool :=
  match statements with
  | [] => otherwise
  | statement :: rest => ends_with_value rest (negb (is_let statement))
  end.

(** Nodes in which no [/] occurs, every statement list ends with a statement
    other than a let statement, and a let statement stands nowhere but in a
    statement list. *)
Fixpoint crash_free (node : ast.Node) : bool :=
  let statement := fun s =>
    match s with
    | ast.LetStatement _ Value => crash_free Value
    | _ => crash_free s
    end in
  let block := fun statements =>
    forallb statement statements && ends_with_value statements false in
  match node with
  | ast.Program Statements => block Statements
  | ast.BlockStatement Statements => block Statements
  | ast.ExpressionStatement Expression => crash_free Expression
  | ast.IntegerLiteral _ => true
  | ast.Boolean _ => true
  | ast.PrefixExpression _ Right => crash_free Right
  | ast.IfExpression Condition Consequence Alternative =>
      crash_free Condition && block Consequence
      && match Alternative with
         | Some alternative => block alternative
         | None => true
         end
  | ast.InfixExpression Left Operator Right =>
      crash_free Left && crash_free Right && negb (String.eqb Operator token.SLASH)
  | ast.ReturnStatement ReturnValue => crash_free ReturnValue
  | ast.LetStatement _ _ => false
  | ast.Identifier _ => true
  end.

Definition crash_free_statement (s : ast.Node) : bool :=
  match s with
  | ast.LetStatement _ Value => crash_free Value
  | _ => crash_free s
  end.

Definition crash_free_block (statements : list ast.Node) : bool :=
  forallb crash_free_statement statements && ends_with_value statements false.

(** [node] yields an object, without [nil] inside, from every state whose
    environment binds such objects only, and leaves such a state. *)
Definition yields_object (node : ast.Node) : Prop :=
  forall st, solid_env (env st) ->
    exists o st', Eval node st = Ok (Some o) st' /\ solid o /\ solid_env (env st').

(** What the induction on nodes carries: the node yields an object when it
    is crash-free, and so does the value expression of a let statement. *)
Definition safe_node (node : ast.Node) : Prop :=
  (crash_free node = true -> yields_object node)
  /\ match node with
     | ast.LetStatement _ Value => crash_free Value = true -> yields_object Value
     | _ => True
     end.

Definition has_value (v : option object.Object) : bool :=
  match v with
  | Some _ => true
  | None => false
  end.

(** * Properties *)

(** ** The monad *)

Lemma bind_Ok {A B : Type} (m : M A) (f : A -> M B) (st st' : State) (a : A) :
  m st = Ok a st' -> (m ≫= f) st = f a st'.
Proof. intros H. unfold mbind, M_bind. now rewrite H. Qed.

Lemma bind_Panic {A B : Type} (m : M A) (f : A -> M B) (st : State) :
  m st = Panic -> (m ≫= f) st = Panic.
Proof. intros H. unfold mbind, M_bind. now rewrite H. Qed.

Lemma new_eq (mk : nat -> object.Object) (st : State) :
  new mk st = Ok (Some (mk (next st))) (bump st).
Proof. reflexivity. Qed.

(** ** Type tags *)

Lemma stops_Type (r : object.Object) :
  String.eqb (object.Type_ r) object.RETURN_VALUE_OBJ
  || String.eqb (object.Type_ r) object.ERROR_OBJ = stops (Some r).
Proof. now destruct r. Qed.

Lemma isError_stops (o : option object.Object) : isError o = true -> stops o = true.
Proof. destruct o as [[]|]; simpl; congruence. Qed.

Lemma isError_Error (o : option object.Object) :
  isError o = true <-> exists p m, o = Some (object.Error p m).
Proof.
  split.
  - destruct o as [[]|]; simpl; try discriminate. eauto.
  - now intros (p & m & ->).
Qed.

(** ** Loops *)

Lemma evalProgram_loop_passes (pre post : list ast.Node)
    (result last : option object.Object) (st st1 : State) :
  passes pre result st = Some (last, st1) ->
  evalProgram_loop Eval (pre ++ post) result st = evalProgram_loop Eval post last st1.
Proof.
  revert result st. induction pre as [|s pre IH]; intros result st H; simpl in H.
  - now inversion H.
  - simpl. destruct (Eval s st) as [r st'|] eqn:Es; [|discriminate].
    rewrite (bind_Ok _ _ _ _ _ Es).
    destruct (stops r) eqn:Hr; [discriminate|].
    destruct r as [[]|]; simpl in Hr; try discriminate; now apply IH.
Qed.

Lemma evalBlockStatement_loop_passes (pre post : list ast.Node)
    (result last : option object.Object) (st st1 : State) :
  passes pre result st = Some (last, st1) ->
  evalBlockStatement_loop Eval (pre ++ post) result st
  = evalBlockStatement_loop Eval post last st1.
Proof.
  revert result st. induction pre as [|s pre IH]; intros result st H; simpl in H.
  - now inversion H.
  - simpl. destruct (Eval s st) as [r st'|] eqn:Es; [|discriminate].
    rewrite (bind_Ok _ _ _ _ _ Es).
    destruct (stops r) eqn:Hr; [discriminate|].
    destruct r as [r|]; [|now apply IH].
    rewrite stops_Type, Hr. now apply IH.
Qed.

(** ** C1: an Error condition of an [if] *)

(** An Error is neither the Null nor the FALSE singleton, so it is truthy,
    and [evalIfExpression] goes on with the consequence. *)
Lemma IfExpression_Error_condition (Condition : ast.Node) (Consequence : list ast.Node)
    (Alternative : option (list ast.Node)) (st st1 : State) (p : nat) (m : string) :
  Eval Condition st = Ok (Some (object.Error p m)) st1 ->
  Eval (ast.IfExpression Condition Consequence Alternative) st
  = Eval (ast.BlockStatement Consequence) st1.
Proof.
  intros Hc. cbn [Eval]. unfold evalIfExpression.
  now rewrite (bind_Ok _ _ _ _ _ Hc).
Qed.

(** C1 (the code departs from it).  The claim wants an [if] whose condition
    evaluates to an Error to return that Error and to leave both branches
    alone.  [evalIfExpression] has no [isError] check: in the empty
    environment the condition of [if (foobar) { 10 }] evaluates to the Error
    [identifier not found: foobar], the Error counts as truthy, the
    consequence is evaluated and the [if] yields Integer 10. *)
Theorem C1_if_error_condition_runs_consequence :
  let foobar := ast.Identifier "foobar" in
  let ten := [ast.ExpressionStatement (ast.IntegerLiteral 10)] in
  Eval foobar initial_state
  = Ok (Some (object.Error 3 "identifier not found: foobar")) (bump initial_state)
  /\ isTruthy (Some (object.Error 3 "identifier not found: foobar")) = true
  /\ Eval (ast.IfExpression foobar ten None) initial_state
     = Ok (Some (object.Integer 4 10)) (bump (bump initial_state)).
Proof. repeat split. Qed.

(** ** C2: programs *)

(** C2.  In a program [pre ++ s :: post] whose statements [pre] have been
    evaluated in order without a ReturnValue or an Error, leaving the state
    [st1], let [s] evaluate to [r]: if [r] is a ReturnValue the program yields
    its inner value, and if [r] is an Error it yields [r]; in both cases
    whatever [post] holds is not evaluated (the outcome and the state do not
    depend on it).  Otherwise, when [s] is the last statement, the program
    yields [r]. *)
Theorem C2_evalProgram (pre post : list ast.Node) (s : ast.Node)
    (st st1 st2 : State) (last r : option object.Object) :
  passes pre None st = Some (last, st1) ->
  Eval s st1 = Ok r st2 ->
  (forall p v, r = Some (object.ReturnValue p v) ->
     Eval (ast.Program (pre ++ s :: post)) st = Ok v st2)
  /\ (forall p m, r = Some (object.Error p m) ->
     Eval (ast.Program (pre ++ s :: post)) st = Ok r st2)
  /\ (stops r = false -> Eval (ast.Program (pre ++ [s])) st = Ok r st2).
Proof.
  intros Hpre Hs. cbn [Eval]. unfold evalProgram.
  rewrite !(evalProgram_loop_passes _ _ _ _ _ _ Hpre). cbn [evalProgram_loop].
  rewrite !(bind_Ok _ _ _ _ _ Hs).
  split; [|split].
  - now intros p v ->.
  - now intros p m ->.
  - intros Hr. destruct r as [[]|]; simpl in Hr; try discriminate; reflexivity.
Qed.

Lemma C2_evalProgram_witness :
  Eval (ast.Program [ast.ExpressionStatement (ast.IntegerLiteral 1);
                     ast.ReturnStatement (ast.IntegerLiteral 2);
                     ast.ExpressionStatement (ast.IntegerLiteral 3)]) initial_state
  = Ok (Some (object.Integer 4 2)) (bump (bump (bump initial_state))).
Proof.
  exact (proj1 (C2_evalProgram
                  [ast.ExpressionStatement (ast.IntegerLiteral 1)]
                  [ast.ExpressionStatement (ast.IntegerLiteral 3)]
                  (ast.ReturnStatement (ast.IntegerLiteral 2))
                  initial_state (bump initial_state) (bump (bump (bump initial_state)))
                  (Some (object.Integer 3 1))
                  (Some (object.ReturnValue 5 (Some (object.Integer 4 2))))
                  eq_refl eq_refl) 5 (Some (object.Integer 4 2)) eq_refl).
Defined.

(** ** C3: blocks *)

(** C3.  In a block [pre ++ s :: post] whose statements [pre] have been
    evaluated in order without a ReturnValue or an Error, let [s] evaluate to
    [r]: if [r] is a ReturnValue or an Error the block yields [r] itself, the
    wrapper included, and [post] is not evaluated; otherwise, when [s] is the
    last statement, the block yields [r]. *)
Theorem C3_evalBlockStatement (pre post : list ast.Node) (s : ast.Node)
    (st st1 st2 : State) (last r : option object.Object) :
  passes pre None st = Some (last, st1) ->
  Eval s st1 = Ok r st2 ->
  (stops r = true -> Eval (ast.BlockStatement (pre ++ s :: post)) st = Ok r st2)
  /\ (stops r = false -> Eval (ast.BlockStatement (pre ++ [s])) st = Ok r st2).
Proof.
  intros Hpre Hs. cbn [Eval]. unfold evalBlockStatement.
  rewrite !(evalBlockStatement_loop_passes _ _ _ _ _ _ Hpre).
  cbn [evalBlockStatement_loop]. rewrite !(bind_Ok _ _ _ _ _ Hs).
  split; intros Hr.
  - destruct r as [r|]; [|discriminate]. now rewrite stops_Type, Hr.
  - destruct r as [r|]; [|reflexivity]. now rewrite stops_Type, Hr.
Qed.

Lemma C3_evalBlockStatement_witness :
  Eval (ast.BlockStatement [ast.ExpressionStatement (ast.IntegerLiteral 1);
                            ast.ReturnStatement (ast.IntegerLiteral 2);
                            ast.ExpressionStatement (ast.IntegerLiteral 3)]) initial_state
  = Ok (Some (object.ReturnValue 5 (Some (object.Integer 4 2))))
       (bump (bump (bump initial_state))).
Proof.
  exact (proj1 (C3_evalBlockStatement
                  [ast.ExpressionStatement (ast.IntegerLiteral 1)]
                  [ast.ExpressionStatement (ast.IntegerLiteral 3)]
                  (ast.ReturnStatement (ast.IntegerLiteral 2))
                  initial_state (bump initial_state) (bump (bump (bump initial_state)))
                  (Some (object.Integer 3 1))
                  (Some (object.ReturnValue 5 (Some (object.Integer 4 2))))
                  eq_refl eq_refl) eq_refl).
Defined.

(** ** 64-bit arithmetic *)

Lemma wrap64_range (z : Z) : is_int64 (wrap64 z).
Proof.
  unfold is_int64, wrap64, int64_min, int64_max.
  pose proof (Z.mod_pos_bound (z + 2 ^ 63) (2 ^ 64) ltac:(lia)). lia.
Qed.

Lemma wrap64_exact (z : Z) : is_int64 z -> wrap64 z = z.
Proof.
  unfold is_int64, wrap64, int64_min, int64_max. intros H.
  rewrite Z.mod_small; lia.
Qed.

Lemma wrap64_congruent (z : Z) : ((wrap64 z - z) mod 2 ^ 64 = 0)%Z.
Proof.
  pose proof (Z.div_mod (z + 2 ^ 63) (2 ^ 64) ltac:(lia)) as H.
  replace (wrap64 z - z)%Z with (- ((z + 2 ^ 63) / 2 ^ 64) * 2 ^ 64)%Z
    by (unfold wrap64; lia).
  apply Z.mod_mul. lia.
Qed.

(** ** Infix expressions *)

Lemma Eval_InfixExpression_operands (Left Right : ast.Node) (Operator : string)
    (st st1 st2 : State) (left right : option object.Object) :
  Eval Left st = Ok left st1 -> isError left = false ->
  Eval Right st1 = Ok right st2 -> isError right = false ->
  Eval (ast.InfixExpression Left Operator Right) st
  = evalInfixExpression left right Operator st2.
Proof.
  intros HL El HR Er. cbn [Eval].
  rewrite (bind_Ok _ _ _ _ _ HL), El, (bind_Ok _ _ _ _ _ HR), Er. reflexivity.
Qed.

Lemma evalInfixExpression_Integer (p q : nat) (a b : Z) (operator : string) :
  evalInfixExpression (Some (object.Integer p a)) (Some (object.Integer q b)) operator
  = evalIntegerInfixExpression a b operator.
Proof. reflexivity. Qed.

Lemma Eval_InfixExpression_Integer (Left Right : ast.Node) (Operator : string)
    (st st1 st2 : State) (p q : nat) (a b : Z) :
  Eval Left st = Ok (Some (object.Integer p a)) st1 ->
  Eval Right st1 = Ok (Some (object.Integer q b)) st2 ->
  Eval (ast.InfixExpression Left Operator Right) st
  = evalIntegerInfixExpression a b Operator st2.
Proof.
  intros HL HR.
  now rewrite (Eval_InfixExpression_operands _ _ _ _ _ _ _ _ HL eq_refl HR eq_refl).
Qed.

(** ** C4: Integer operands *)

(** C4, as the claim has it, fails: [9223372036854775807 + 1] does not yield
    the exact sum 9223372036854775808 but Integer -9223372036854775808. *)
Lemma C4_exact_result_counterexample :
  is_int64 int64_max /\ is_int64 1 /\ 1%Z <> 0%Z
  /\ Eval (ast.InfixExpression (ast.IntegerLiteral int64_max) token.PLUS
                               (ast.IntegerLiteral 1)) initial_state
     = Ok (Some (object.Integer 5 int64_min)) (bump (bump (bump initial_state)))
  /\ int64_min <> (int64_max + 1)%Z.
Proof.
  unfold is_int64, int64_min, int64_max.
  split; [lia|]. split; [lia|]. split; [lia|]. split; [|lia].
  vm_compute. reflexivity.
Qed.

(** C4, amended.  When the operands of an infix expression evaluate to the
    Integers [a] and [b]: [+], [-], [*] and, for [b] not zero, [/] yield a new
    Integer holding the exact result ([/] truncating toward zero) reduced to
    64 bits, which is the exact result whenever that fits in 64 bits; [==],
    [!=], [<] and [>] compare [a] and [b], whatever they are, and yield the
    TRUE or the FALSE singleton. *)
Theorem C4_integer_infix (Left Right : ast.Node) (st st1 st2 : State)
    (p q : nat) (a b : Z) :
  Eval Left st = Ok (Some (object.Integer p a)) st1 ->
  Eval Right st1 = Ok (Some (object.Integer q b)) st2 ->
  let infix operator := Eval (ast.InfixExpression Left operator Right) st in
  let integer v := Ok (Some (object.Integer (next st2) v)) (bump st2) in
  let boolean (t : bool) := Ok (Some (if t then TRUE else FALSE)) st2 in
  (infix "+" = integer (wrap64 (a + b))
   /\ infix "-" = integer (wrap64 (a - b))
   /\ infix "*" = integer (wrap64 (a * b))
   /\ (b <> 0%Z -> infix "/" = integer (wrap64 (Z.quot a b))))
  /\ ((is_int64 (a + b) -> infix "+" = integer (a + b)%Z)
      /\ (is_int64 (a - b) -> infix "-" = integer (a - b)%Z)
      /\ (is_int64 (a * b) -> infix "*" = integer (a * b)%Z)
      /\ (b <> 0%Z -> is_int64 (Z.quot a b) -> infix "/" = integer (Z.quot a b)))
  /\ (infix "==" = boolean (bool_decide (a = b))
      /\ infix "!=" = boolean (bool_decide (a <> b))
      /\ infix "<" = boolean (bool_decide (a < b)%Z)
      /\ infix ">" = boolean (bool_decide (a > b)%Z)).
Proof.
  intros HL HR infix integer boolean. subst infix. cbv beta.
  assert (Hquot : b <> 0%Z ->
                  evalIntegerInfixExpression a b "/" st2 = integer (wrap64 (Z.quot a b))).
  { intros Hb. unfold evalIntegerInfixExpression. simpl.
    destruct (Z.eqb_spec b 0); [contradiction|reflexivity]. }
  rewrite !(Eval_InfixExpression_Integer _ _ _ _ _ _ _ _ _ _ HL HR).
  split; [|split].
  - repeat split; try reflexivity. exact Hquot.
  - split; [|split; [|split]].
    + intros Hfit. now rewrite <- (wrap64_exact _ Hfit).
    + intros Hfit. now rewrite <- (wrap64_exact _ Hfit).
    + intros Hfit. now rewrite <- (wrap64_exact _ Hfit).
    + intros Hb Hfit. rewrite <- (wrap64_exact _ Hfit). exact (Hquot Hb).
  - unfold boolean, evalIntegerInfixExpression; simpl.
    split; [|split; [|split]].
    + destruct (Z.eqb_spec a b).
      * now rewrite bool_decide_eq_true_2.
      * now rewrite bool_decide_eq_false_2.
    + destruct (Z.eqb_spec a b).
      * rewrite bool_decide_eq_false_2; [reflexivity|]. intros H; now apply H.
      * now rewrite bool_decide_eq_true_2.
    + destruct (Z.ltb_spec a b).
      * now rewrite bool_decide_eq_true_2.
      * rewrite bool_decide_eq_false_2; [reflexivity|lia].
    + rewrite Z.gtb_ltb. destruct (Z.ltb_spec b a).
      * rewrite bool_decide_eq_true_2; [reflexivity|lia].
      * rewrite bool_decide_eq_false_2; [reflexivity|lia].
Qed.

Lemma C4_integer_infix_witness :
  Eval (ast.InfixExpression (ast.PrefixExpression "-" (ast.IntegerLiteral 7)) "/"
                            (ast.IntegerLiteral 2)) initial_state
  = Ok (Some (object.Integer 6 (-3))) (mkState (object.mkEnvironment ∅) 7)
  /\ Eval (ast.InfixExpression (ast.PrefixExpression "-" (ast.IntegerLiteral 7)) "<"
                               (ast.IntegerLiteral 2)) initial_state
     = Ok (Some TRUE) (mkState (object.mkEnvironment ∅) 6)
  /\ Eval (ast.InfixExpression (ast.IntegerLiteral 0) "==" (ast.IntegerLiteral 0))
          initial_state
     = Ok (Some TRUE) (mkState (object.mkEnvironment ∅) 5).
Proof.
  pose proof (C4_integer_infix
                (ast.PrefixExpression "-" (ast.IntegerLiteral 7)) (ast.IntegerLiteral 2)
                initial_state (mkState (object.mkEnvironment ∅) 5)
                (mkState (object.mkEnvironment ∅) 6) 4 5 (-7) 2
                eq_refl eq_refl) as (Harith & _ & Hcmp).
  pose proof (C4_integer_infix (ast.IntegerLiteral 0) (ast.IntegerLiteral 0)
                initial_state (bump initial_state) (bump (bump initial_state))
                3 4 0 0 eq_refl eq_refl) as (_ & _ & Hzero).
  split; [|split].
  - exact (proj2 (proj2 (proj2 Harith)) ltac:(discriminate)).
  - exact (proj1 (proj2 (proj2 Hcmp))).
  - exact (proj1 Hzero).
Defined.

(** ** C10: wrap-around *)

(** C10.  [+], [-] and [*] on two Integers and the prefix [-] on an Integer
    never produce an Error: they yield a new Integer whose value lies in
    [-2^63, 2^63) and differs from the exact result by a multiple of 2^64.
    The negation of -2^63 is -2^63, and 2^63-1 plus 1 is -2^63. *)
Theorem C10_integer_arithmetic_wraps (p : nat) (a b : Z) (st : State) :
  let wraps (outcome : Res (option object.Object)) (exact : Z) :=
    exists v, outcome = Ok (Some (object.Integer (next st) v)) (bump st)
              /\ is_int64 v /\ ((v - exact) mod 2 ^ 64 = 0)%Z in
  wraps (evalIntegerInfixExpression a b token.PLUS st) (a + b)%Z
  /\ wraps (evalIntegerInfixExpression a b token.MINUS st) (a - b)%Z
  /\ wraps (evalIntegerInfixExpression a b token.ASTERISK st) (a * b)%Z
  /\ wraps (evalMinusPrefixOperator (Some (object.Integer p a)) st) (- a)%Z
  /\ evalMinusPrefixOperator (Some (object.Integer p int64_min)) st
     = Ok (Some (object.Integer (next st) int64_min)) (bump st)
  /\ evalIntegerInfixExpression int64_max 1 token.PLUS st
     = Ok (Some (object.Integer (next st) int64_min)) (bump st).
Proof.
  intros wraps.
  assert (W : forall z, wraps (Ok (Some (object.Integer (next st) (wrap64 z))) (bump st)) z).
  { intros z. exists (wrap64 z). split; [reflexivity|].
    split; [apply wrap64_range | apply wrap64_congruent]. }
  repeat split; try apply W; reflexivity.
Qed.

(** ** C5: operands of different types *)

(** C5.  When the two operands of an infix expression evaluate to objects
    that are not Errors and whose type tags differ, the expression yields a
    new Error with the message [type mismatch: <LEFT_TYPE> + <RIGHT_TYPE>],
    whatever the operator is. *)
Theorem C5_type_mismatch (Left Right : ast.Node) (Operator : string)
    (st st1 st2 : State) (l r : object.Object) :
  Eval Left st = Ok (Some l) st1 -> isError (Some l) = false ->
  Eval Right st1 = Ok (Some r) st2 -> isError (Some r) = false ->
  object.Type_ l <> object.Type_ r ->
  Eval (ast.InfixExpression Left Operator Right) st
  = Ok (Some (object.Error (next st2)
                ("type mismatch: " +:+ object.Type_ l +:+ " + " +:+ object.Type_ r)))
       (bump st2).
Proof.
  intros HL El HR Er Hne.
  rewrite (Eval_InfixExpression_operands _ _ _ _ _ _ _ _ HL El HR Er).
  unfold evalInfixExpression.
  destruct (String.eqb_spec (object.Type_ l) (object.Type_ r)); [contradiction|].
  reflexivity.
Qed.

Lemma C5_type_mismatch_witness :
  Eval (ast.InfixExpression (ast.IntegerLiteral 5) "+" (ast.Boolean true)) initial_state
  = Ok (Some (object.Error 4 "type mismatch: INTEGER + BOOLEAN"))
       (mkState (object.mkEnvironment ∅) 5)
  /\ Eval (ast.InfixExpression (ast.IntegerLiteral 5) "==" (ast.Boolean true)) initial_state
     = Ok (Some (object.Error 4 "type mismatch: INTEGER + BOOLEAN"))
          (mkState (object.mkEnvironment ∅) 5).
Proof.
  split.
  - exact (C5_type_mismatch (ast.IntegerLiteral 5) (ast.Boolean true) "+"
             initial_state (bump initial_state) (bump initial_state)
             (object.Integer 3 5) TRUE eq_refl eq_refl eq_refl eq_refl
             ltac:(discriminate)).
  - exact (C5_type_mismatch (ast.IntegerLiteral 5) (ast.Boolean true) "=="
             initial_state (bump initial_state) (bump initial_state)
             (object.Integer 3 5) TRUE eq_refl eq_refl eq_refl eq_refl
             ltac:(discriminate)).
Defined.

(** ** C6: [==] and [!=] away from Integers *)

Lemma same_object_ptr (l r : object.Object) :
  object.Type_ l = object.Type_ r ->
  object.same_object (Some l) (Some r) = bool_decide (object.ptr_of l = object.ptr_of r).
Proof.
  intros Ht. simpl. rewrite Ht, String.eqb_refl. simpl.
  destruct (Nat.eqb_spec (object.ptr_of l) (object.ptr_of r)).
  - now rewrite bool_decide_eq_true_2.
  - now rewrite bool_decide_eq_false_2.
Qed.

(** C6.  When the two operands of [==] or [!=] evaluate to objects of the
    same type tag other than INTEGER, the result is the TRUE or the FALSE
    singleton according to whether the two operands are one and the same
    object (the same address); what the objects hold is not compared. *)
Theorem C6_identity_equality (Left Right : ast.Node) (st st1 st2 : State)
    (l r : object.Object) :
  Eval Left st = Ok (Some l) st1 -> isError (Some l) = false ->
  Eval Right st1 = Ok (Some r) st2 -> isError (Some r) = false ->
  object.Type_ l = object.Type_ r ->
  object.Type_ l <> object.INTEGER_OBJ ->
  let same := bool_decide (object.ptr_of l = object.ptr_of r) in
  Eval (ast.InfixExpression Left "==" Right) st
  = Ok (Some (if same then TRUE else FALSE)) st2
  /\ Eval (ast.InfixExpression Left "!=" Right) st
     = Ok (Some (if same then FALSE else TRUE)) st2.
Proof.
  intros HL El HR Er Ht Hi same. subst same.
  rewrite <- (same_object_ptr _ _ Ht).
  rewrite !(Eval_InfixExpression_operands _ _ _ _ _ _ _ _ HL El HR Er).
  unfold evalInfixExpression. rewrite <- Ht, String.eqb_refl.
  destruct (String.eqb_spec (object.Type_ l) object.INTEGER_OBJ); [contradiction|].
  cbn - [object.same_object].
  now destruct (object.same_object (Some l) (Some r)).
Qed.

Lemma C6_identity_equality_witness :
  Eval (ast.InfixExpression (ast.Boolean true) "==" (ast.Boolean true)) initial_state
  = Ok (Some TRUE) initial_state
  /\ Eval (ast.InfixExpression (ast.Boolean false) "!=" (ast.Boolean true)) initial_state
     = Ok (Some TRUE) initial_state
  /\ Eval (ast.InfixExpression (ast.Boolean true) "==" (ast.Boolean false)) initial_state
     = Ok (Some FALSE) initial_state.
Proof.
  split; [|split].
  - exact (proj1 (C6_identity_equality (ast.Boolean true) (ast.Boolean true)
                    initial_state initial_state initial_state TRUE TRUE
                    eq_refl eq_refl eq_refl eq_refl eq_refl ltac:(discriminate))).
  - exact (proj2 (C6_identity_equality (ast.Boolean false) (ast.Boolean true)
                    initial_state initial_state initial_state FALSE TRUE
                    eq_refl eq_refl eq_refl eq_refl eq_refl ltac:(discriminate))).
  - exact (proj1 (C6_identity_equality (ast.Boolean true) (ast.Boolean false)
                    initial_state initial_state initial_state TRUE FALSE
                    eq_refl eq_refl eq_refl eq_refl eq_refl ltac:(discriminate))).
Defined.

(** Two allocations that hold the same thing are still two objects:
    [(if (true) { return 1 }) == (if (true) { return 1 })] is FALSE, while
    [(if (false) { 1 }) == (if (false) { 1 })] compares the Null singleton
    with itself and is TRUE. *)
Example equal_contents_distinct_objects :
  let wrapped := ast.IfExpression (ast.Boolean true)
                   [ast.ReturnStatement (ast.IntegerLiteral 1)] None in
  let null := ast.IfExpression (ast.Boolean false)
                [ast.ExpressionStatement (ast.IntegerLiteral 1)] None in
  Eval wrapped initial_state
  = Ok (Some (object.ReturnValue 4 (Some (object.Integer 3 1))))
       (mkState (object.mkEnvironment ∅) 5)
  /\ Eval wrapped (mkState (object.mkEnvironment ∅) 5)
     = Ok (Some (object.ReturnValue 6 (Some (object.Integer 5 1))))
          (mkState (object.mkEnvironment ∅) 7)
  /\ Eval (ast.InfixExpression wrapped "==" wrapped) initial_state
     = Ok (Some FALSE) (mkState (object.mkEnvironment ∅) 7)
  /\ Eval (ast.InfixExpression null "==" null) initial_state
     = Ok (Some TRUE) initial_state.
Proof. repeat split. Qed.

(** ** C7: truthiness and [if] *)

Lemma same_object_TRUE_FALSE (obj : option object.Object) :
  object.same_object obj (Some TRUE) = true ->
  object.same_object obj (Some FALSE) = true -> False.
Proof.
  destruct obj as [[]|]; simpl; try discriminate.
  intros Ht Hf. apply Nat.eqb_eq in Ht, Hf. congruence.
Qed.

Lemma isTruthy_false_iff (obj : option object.Object) :
  isTruthy obj = false
  <-> object.same_object obj (Some NULL) = true
      \/ object.same_object obj (Some FALSE) = true.
Proof.
  unfold isTruthy.
  destruct (object.same_object obj (Some NULL)) eqn:Hn; [tauto|].
  destruct (object.same_object obj (Some TRUE)) eqn:Ht.
  - split; [discriminate|]. intros [H|H]; [discriminate|].
    destruct (same_object_TRUE_FALSE _ Ht H).
  - destruct (object.same_object obj (Some FALSE)); intuition congruence.
Qed.

(** C7.  The Null singleton and the FALSE singleton are falsy and every
    other object is truthy, every Integer (zero too) and TRUE among them.
    With the condition of an [if] evaluated to [c]: a truthy [c] gives the
    result of the consequence block; a falsy [c] gives the result of the
    alternative block when there is one, and the Null singleton when there
    is none. *)
Theorem C7_truthiness_and_if (Condition : ast.Node) (Consequence : list ast.Node)
    (st st1 : State) (c : option object.Object) :
  Eval Condition st = Ok c st1 ->
  (isTruthy (Some NULL) = false /\ isTruthy (Some FALSE) = false
   /\ isTruthy (Some TRUE) = true
   /\ (forall p v, isTruthy (Some (object.Integer p v)) = true)
   /\ (forall obj, object.same_object obj (Some NULL) = false ->
                   object.same_object obj (Some FALSE) = false ->
                   isTruthy obj = true))
  /\ (isTruthy c = true ->
      forall Alternative,
        Eval (ast.IfExpression Condition Consequence Alternative) st
        = Eval (ast.BlockStatement Consequence) st1)
  /\ (isTruthy c = false ->
      forall alternative,
        Eval (ast.IfExpression Condition Consequence (Some alternative)) st
        = Eval (ast.BlockStatement alternative) st1)
  /\ (isTruthy c = false ->
      Eval (ast.IfExpression Condition Consequence None) st = Ok (Some NULL) st1).
Proof.
  intros Hc. split; [|split; [|split]].
  - repeat split.
    intros obj Hn Hf. destruct (isTruthy obj) eqn:Ht; [reflexivity|].
    apply isTruthy_false_iff in Ht as [H|H]; congruence.
  - intros Ht Alternative. cbn [Eval]. unfold evalIfExpression.
    now rewrite (bind_Ok _ _ _ _ _ Hc), Ht.
  - intros Ht alternative. cbn [Eval]. unfold evalIfExpression.
    now rewrite (bind_Ok _ _ _ _ _ Hc), Ht.
  - intros Ht. cbn [Eval]. unfold evalIfExpression.
    now rewrite (bind_Ok _ _ _ _ _ Hc), Ht.
Qed.

Lemma C7_truthiness_and_if_witness :
  let ten := [ast.ExpressionStatement (ast.IntegerLiteral 10)] in
  let twenty := [ast.ExpressionStatement (ast.IntegerLiteral 20)] in
  Eval (ast.IfExpression (ast.IntegerLiteral 0) ten (Some twenty)) initial_state
  = Ok (Some (object.Integer 4 10)) (mkState (object.mkEnvironment ∅) 5)
  /\ Eval (ast.IfExpression (ast.Boolean false) ten (Some twenty)) initial_state
     = Ok (Some (object.Integer 3 20)) (mkState (object.mkEnvironment ∅) 4)
  /\ Eval (ast.IfExpression (ast.Boolean false) ten None) initial_state
     = Ok (Some NULL) initial_state.
Proof.
  intros ten twenty. split; [|split].
  - exact (proj1 (proj2 (C7_truthiness_and_if (ast.IntegerLiteral 0) ten
                           initial_state (bump initial_state)
                           (Some (object.Integer 3 0)) eq_refl))
             eq_refl (Some twenty)).
  - exact (proj1 (proj2 (proj2 (C7_truthiness_and_if (ast.Boolean false) ten
                                  initial_state initial_state (Some FALSE) eq_refl)))
             eq_refl twenty).
  - exact (proj2 (proj2 (proj2 (C7_truthiness_and_if (ast.Boolean false) ten
                                  initial_state initial_state (Some FALSE) eq_refl)))
             eq_refl).
Defined.

(** ** C8: the prefix [!] *)

(** C8.  With the operand of [!] evaluated to [o], not an Error: the result
    is FALSE when [o] is the TRUE singleton, TRUE when [o] is the FALSE
    singleton, TRUE when [o] is the Null singleton, and FALSE for every
    other [o]. *)
Theorem C8_bang (Right : ast.Node) (st st1 : State) (o : option object.Object) :
  Eval Right st = Ok o st1 -> isError o = false ->
  let bang := Eval (ast.PrefixExpression "!" Right) st in
  (object.same_object o (Some TRUE) = true -> bang = Ok (Some FALSE) st1)
  /\ (object.same_object o (Some FALSE) = true -> bang = Ok (Some TRUE) st1)
  /\ (object.same_object o (Some NULL) = true -> bang = Ok (Some TRUE) st1)
  /\ (object.same_object o (Some TRUE) = false ->
      object.same_object o (Some FALSE) = false ->
      object.same_object o (Some NULL) = false -> bang = Ok (Some FALSE) st1).
Proof.
  intros Ho Eo bang.
  assert (Hb : bang = Ok (evalBangOperator o) st1).
  { subst bang. cbn [Eval]. now rewrite (bind_Ok _ _ _ _ _ Ho), Eo. }
  rewrite Hb. unfold evalBangOperator.
  split; [|split; [|split]].
  - now intros ->.
  - intros Hf. rewrite Hf.
    destruct (object.same_object o (Some TRUE)) eqn:Ht; [|reflexivity].
    destruct (same_object_TRUE_FALSE _ Ht Hf).
  - intros Hn. rewrite Hn.
    destruct o as [[]|]; simpl in *; try discriminate. reflexivity.
  - now intros -> -> ->.
Qed.

Lemma C8_bang_witness :
  Eval (ast.PrefixExpression "!" (ast.IntegerLiteral 5)) initial_state
  = Ok (Some FALSE) (bump initial_state)
  /\ Eval (ast.PrefixExpression "!" (ast.Boolean true)) initial_state
     = Ok (Some FALSE) initial_state
  /\ Eval (ast.PrefixExpression "!" (ast.PrefixExpression "!" (ast.Boolean true)))
          initial_state
     = Ok (Some TRUE) initial_state.
Proof.
  split; [|split].
  - exact (proj2 (proj2 (proj2 (C8_bang (ast.IntegerLiteral 5) initial_state
                                  (bump initial_state) (Some (object.Integer 3 5))
                                  eq_refl eq_refl)))
             eq_refl eq_refl eq_refl).
  - exact (proj1 (C8_bang (ast.Boolean true) initial_state initial_state (Some TRUE)
                    eq_refl eq_refl) eq_refl).
  - exact (proj1 (proj2 (C8_bang (ast.PrefixExpression "!" (ast.Boolean true))
                           initial_state initial_state (Some FALSE) eq_refl eq_refl))
             eq_refl).
Defined.

(** ** Who writes the environment *)

Lemma keeps_env_ret {A : Type} (a : A) : keeps_env (mret a).
Proof. intros st a' st' H. now inversion H. Qed.

Lemma keeps_env_panic {A : Type} : keeps_env (@panic A).
Proof. intros st a st' H. discriminate. Qed.

Lemma keeps_env_new (mk : nat -> object.Object) : keeps_env (new mk).
Proof. intros st a st' H. now inversion H. Qed.

Lemma keeps_env_Get (name : string) : keeps_env (env_Get name).
Proof. intros st a st' H. now inversion H. Qed.

Lemma keeps_env_bind {A B : Type} (m : M A) (f : A -> M B) :
  keeps_env m -> (forall a, keeps_env (f a)) -> keeps_env (m ≫= f).
Proof.
  intros Hm Hf st b st' H. unfold mbind, M_bind in H.
  destruct (m st) as [a st1|] eqn:E; [|discriminate].
  rewrite (Hf _ _ _ _ H). exact (Hm _ _ _ E).
Qed.

Create HintDb keeps.
#[local] Hint Resolve keeps_env_ret keeps_env_panic keeps_env_new keeps_env_Get : keeps.
#[local] Hint Extern 1 (keeps_env (newError _)) => apply keeps_env_new : keeps.

(** Splits the branches of a computation and closes the leaves. *)
Ltac keeps_cases :=
  repeat match goal with
         | |- keeps_env (if ?b then _ else _) => destruct b
         | |- keeps_env (match ?x with _ => _ end) => destruct x
         end;
  auto with keeps.

Lemma keeps_env_evalIntegerInfixExpression (left right : Z) (operator : string) :
  keeps_env (evalIntegerInfixExpression left right operator).
Proof. unfold evalIntegerInfixExpression. keeps_cases. Qed.

Lemma keeps_env_evalInfixExpression (left right : option object.Object) (operator : string) :
  keeps_env (evalInfixExpression left right operator).
Proof.
  unfold evalInfixExpression.
  destruct left as [l|], right as [r|]; auto with keeps.
  destruct (negb _); auto with keeps.
  destruct (_ && _).
  - destruct l, r; auto using keeps_env_evalIntegerInfixExpression with keeps.
  - keeps_cases.
Qed.

Lemma keeps_env_evalPrefixExpression (operator : string) (o : option object.Object) :
  keeps_env (evalPrefixExpression operator o).
Proof.
  unfold evalPrefixExpression, evalMinusPrefixOperator.
  destruct (String.eqb operator token.BANG); auto with keeps.
  destruct (String.eqb operator token.MINUS); destruct o as [[]|]; keeps_cases.
Qed.

Lemma keeps_env_evalProgram_loop (statements : list ast.Node)
    (result : option object.Object) :
  Forall (fun node => has_let node = false -> keeps_env (Eval node)) statements ->
  existsb has_let statements = false ->
  keeps_env (evalProgram_loop Eval statements result).
Proof.
  intros Hall. revert result.
  induction Hall as [|s rest Hs _ IH]; intros result Hno_let;
    cbn [evalProgram_loop]; auto with keeps.
  cbn [existsb] in Hno_let. apply orb_false_elim in Hno_let as [Hl Hrest].
  apply keeps_env_bind; [now apply Hs|].
  intros [[]|]; auto with keeps.
Qed.

Lemma keeps_env_evalBlockStatement_loop (statements : list ast.Node)
    (result : option object.Object) :
  Forall (fun node => has_let node = false -> keeps_env (Eval node)) statements ->
  existsb has_let statements = false ->
  keeps_env (evalBlockStatement_loop Eval statements result).
Proof.
  intros Hall. revert result.
  induction Hall as [|s rest Hs _ IH]; intros result Hno_let;
    cbn [evalBlockStatement_loop]; auto with keeps.
  cbn [existsb] in Hno_let. apply orb_false_elim in Hno_let as [Hl Hrest].
  apply keeps_env_bind; [now apply Hs|].
  intros [r|]; [destruct (_ || _)|]; auto with keeps.
Qed.

(** Only a let statement writes the environment. *)
Lemma keeps_env_Eval (node : ast.Node) : has_let node = false -> keeps_env (Eval node).
Proof.
  induction node using ast.Node_nested_ind; cbn [has_let Eval]; intros Hl;
    auto with keeps.
  - now apply keeps_env_evalProgram_loop.
  - now apply keeps_env_evalBlockStatement_loop.
  - apply keeps_env_bind; [auto|]. intros right.
    destruct (isError right); auto using keeps_env_evalPrefixExpression with keeps.
  - apply orb_false_elim in Hl as [Hl Ha]. apply orb_false_elim in Hl as [Hc Hl].
    unfold evalIfExpression. apply keeps_env_bind; [auto|]. intros condition.
    destruct (isTruthy condition).
    + now apply keeps_env_evalBlockStatement_loop.
    + destruct Alternative as [alternative|]; auto with keeps.
      now apply keeps_env_evalBlockStatement_loop.
  - apply orb_false_elim in Hl as [Hl Hr].
    apply keeps_env_bind; [auto|]. intros left.
    destruct (isError left); auto with keeps.
    apply keeps_env_bind; [auto|]. intros right.
    destruct (isError right); auto using keeps_env_evalInfixExpression with keeps.
  - apply keeps_env_bind; [auto|]. intros val.
    destruct (isError val); auto with keeps.
  - discriminate.
  - apply keeps_env_bind; auto with keeps. intros [val []]; simpl; auto with keeps.
Qed.

(** ** C9: let statements *)

(** C9, as the claim has it, fails: in [let x = if (true) { let x = 1; foobar };]
    the value expression evaluates to the Error [identifier not found: foobar]
    and the statement returns it, yet the environment is not what it was: the
    let statement inside the block has bound [x], which was unbound, to
    Integer 1. *)
Lemma C9_environment_unchanged_counterexample :
  let value := ast.IfExpression (ast.Boolean true)
                 [ast.LetStatement "x" (ast.IntegerLiteral 1);
                  ast.ExpressionStatement (ast.Identifier "foobar")] None in
  exists st',
    Eval (ast.LetStatement "x" value) initial_state
    = Ok (Some (object.Error 4 "identifier not found: foobar")) st'
    /\ object.store (env initial_state) !! "x" = None
    /\ object.store (env st') !! "x" = Some (Some (object.Integer 3 1))
    /\ env st' <> env initial_state.
Proof.
  eexists. split; [reflexivity|]. split; [reflexivity|]. split; [reflexivity|].
  intros H. apply (f_equal (fun e => object.store e !! "x")) in H.
  vm_compute in H. discriminate.
Qed.

(** C9, amended.  With the value expression of a let statement evaluated to
    [val] in the state [st1]: if [val] is an Error the statement returns it
    and binds nothing itself, so that the state is [st1], and the environment
    is the one before the statement whenever the value expression holds no
    let statement; otherwise the statement binds [val] under its name,
    creating or overwriting that binding and no other, yields no value, and
    the name then evaluates to [val]. *)
Theorem C9_let_statement (Name : string) (Value : ast.Node) (st st1 : State)
    (val : option object.Object) :
  Eval Value st = Ok val st1 ->
  (isError val = true ->
     Eval (ast.LetStatement Name Value) st = Ok val st1
     /\ (has_let Value = false -> env st1 = env st))
  /\ (isError val = false ->
      let st2 := mkState (object.Set_ (env st1) Name val) (next st1) in
      Eval (ast.LetStatement Name Value) st = Ok None st2
      /\ object.store (env st2) !! Name = Some val
      /\ (forall other, other <> Name ->
            object.store (env st2) !! other = object.store (env st1) !! other)
      /\ Eval (ast.Identifier Name) st2 = Ok val st2).
Proof.
  intros Hv. split; intros He.
  - split.
    + cbn [Eval]. now rewrite (bind_Ok _ _ _ _ _ Hv), He.
    + intros Hl. exact (keeps_env_Eval _ Hl _ _ _ Hv).
  - intros st2. split; [|split; [|split]].
    + cbn [Eval]. now rewrite (bind_Ok _ _ _ _ _ Hv), He.
    + apply lookup_insert_eq.
    + intros other Ho. now apply lookup_insert_ne.
    + cbn [Eval]. unfold mbind, M_bind, env_Get, object.Get.
      subst st2. cbn [env object.Set_ object.store].
      now rewrite lookup_insert_eq.
Qed.

Lemma C9_let_statement_witness :
  let st2 := mkState (object.Set_ (env initial_state) "x" (Some (object.Integer 3 5))) 4 in
  Eval (ast.LetStatement "x" (ast.IntegerLiteral 5)) initial_state = Ok None st2
  /\ Eval (ast.Identifier "x") st2 = Ok (Some (object.Integer 3 5)) st2.
Proof.
  pose proof (proj2 (C9_let_statement "x" (ast.IntegerLiteral 5) initial_state
                       (bump initial_state) (Some (object.Integer 3 5)) eq_refl)
                eq_refl) as (Hlet & _ & _ & Hx).
  split; [exact Hlet | exact Hx].
Defined.

(** [let x = 5; x] yields Integer 5. *)
Example let_then_identifier :
  exists st',
    Eval (ast.Program [ast.LetStatement "x" (ast.IntegerLiteral 5);
                       ast.ExpressionStatement (ast.Identifier "x")]) initial_state
    = Ok (Some (object.Integer 3 5)) st'.
Proof. eexists. reflexivity. Qed.

(** * Further properties of the evaluator *)

(** ** Identifiers *)

(** X1.  An identifier that the environment does not bind evaluates to a
    new Error [identifier not found: <name>] and leaves the environment as
    it is; a bound identifier evaluates to the very object it is bound to
    and leaves the whole state as it is. *)
Theorem X1_identifier_lookup (name : string) (st : State) :
  (object.store (env st) !! name = None ->
   Eval (ast.Identifier name) st
   = Ok (Some (object.Error (next st) ("identifier not found: " +:+ name))) (bump st))
  /\ (forall val, object.store (env st) !! name = Some val ->
        Eval (ast.Identifier name) st = Ok val st).
Proof.
  split.
  - intros H. cbn [Eval]. unfold mbind, M_bind, env_Get, object.Get. now rewrite H.
  - intros val H. cbn [Eval]. unfold mbind, M_bind, env_Get, object.Get. now rewrite H.
Qed.

Lemma X1_identifier_lookup_witness :
  let bound := mkState (object.Set_ (env initial_state) "x" (Some TRUE)) 3 in
  Eval (ast.Identifier "foobar") initial_state
  = Ok (Some (object.Error 3 "identifier not found: foobar")) (bump initial_state)
  /\ Eval (ast.Identifier "x") bound = Ok (Some TRUE) bound.
Proof.
  intros bound. split.
  - exact (proj1 (X1_identifier_lookup "foobar" initial_state) eq_refl).
  - exact (proj2 (X1_identifier_lookup "x" bound) (Some TRUE) eq_refl).
Defined.

(** ** Errors on the way up *)

(** X2.  When the operand of a prefix expression evaluates to an Error, the
    expression yields that Error, whatever the operator. *)
Theorem X2_prefix_error_operand (Operator : string) (Right : ast.Node)
    (st st1 : State) (p : nat) (m : string) :
  Eval Right st = Ok (Some (object.Error p m)) st1 ->
  Eval (ast.PrefixExpression Operator Right) st = Ok (Some (object.Error p m)) st1.
Proof. intros H. cbn [Eval]. now rewrite (bind_Ok _ _ _ _ _ H). Qed.

Lemma X2_prefix_error_operand_witness :
  Eval (ast.PrefixExpression "-" (ast.Identifier "foobar")) initial_state
  = Ok (Some (object.Error 3 "identifier not found: foobar")) (bump initial_state).
Proof.
  exact (X2_prefix_error_operand "-" (ast.Identifier "foobar") initial_state
           (bump initial_state) 3 "identifier not found: foobar" eq_refl).
Defined.

(** X3.  When the left operand of an infix expression evaluates to an Error,
    the expression yields that Error and the right operand is not evaluated:
    the outcome is the same for every right operand and every operator. *)
Theorem X3_infix_left_error (Left : ast.Node) (st st1 : State) (p : nat) (m : string) :
  Eval Left st = Ok (Some (object.Error p m)) st1 ->
  forall Operator Right,
    Eval (ast.InfixExpression Left Operator Right) st = Ok (Some (object.Error p m)) st1.
Proof. intros H Operator Right. cbn [Eval]. now rewrite (bind_Ok _ _ _ _ _ H). Qed.

Lemma X3_infix_left_error_witness :
  Eval (ast.InfixExpression (ast.Identifier "foobar") "+"
          (ast.InfixExpression (ast.IntegerLiteral 1) "/" (ast.IntegerLiteral 0)))
       initial_state
  = Ok (Some (object.Error 3 "identifier not found: foobar")) (bump initial_state).
Proof.
  exact (X3_infix_left_error (ast.Identifier "foobar") initial_state
           (bump initial_state) 3 "identifier not found: foobar" eq_refl "+"
           (ast.InfixExpression (ast.IntegerLiteral 1) "/" (ast.IntegerLiteral 0))).
Defined.

(** X4.  When the left operand evaluates to anything but an Error (no value
    at all included) and the right operand evaluates to an Error, the infix
    expression yields the right operand's Error, whatever the operator. *)
Theorem X4_infix_right_error (Left Right : ast.Node) (Operator : string)
    (st st1 st2 : State) (left : option object.Object) (p : nat) (m : string) :
  Eval Left st = Ok left st1 -> isError left = false ->
  Eval Right st1 = Ok (Some (object.Error p m)) st2 ->
  Eval (ast.InfixExpression Left Operator Right) st = Ok (Some (object.Error p m)) st2.
Proof.
  intros HL El HR. cbn [Eval].
  now rewrite (bind_Ok _ _ _ _ _ HL), El, (bind_Ok _ _ _ _ _ HR).
Qed.

Lemma X4_infix_right_error_witness :
  Eval (ast.InfixExpression (ast.IfExpression (ast.Boolean true) [] None) "*"
                            (ast.Identifier "foobar")) initial_state
  = Ok (Some (object.Error 3 "identifier not found: foobar")) (bump initial_state).
Proof.
  exact (X4_infix_right_error (ast.IfExpression (ast.Boolean true) [] None)
           (ast.Identifier "foobar") "*" initial_state initial_state
           (bump initial_state) None 3 "identifier not found: foobar"
           eq_refl eq_refl eq_refl).
Defined.

(** X5.  A return statement whose expression evaluates to an Error yields
    that Error, not wrapped; any other value (no value at all included) comes
    back inside a new ReturnValue. *)
Theorem X5_return_statement (ReturnValue : ast.Node) (st st1 : State)
    (val : option object.Object) :
  Eval ReturnValue st = Ok val st1 ->
  (isError val = true -> Eval (ast.ReturnStatement ReturnValue) st = Ok val st1)
  /\ (isError val = false ->
      Eval (ast.ReturnStatement ReturnValue) st
      = Ok (Some (object.ReturnValue (next st1) val)) (bump st1)).
Proof.
  intros H. split; intros He; cbn [Eval]; now rewrite (bind_Ok _ _ _ _ _ H), He.
Qed.

Lemma X5_return_statement_witness :
  Eval (ast.ReturnStatement (ast.Identifier "foobar")) initial_state
  = Ok (Some (object.Error 3 "identifier not found: foobar")) (bump initial_state)
  /\ Eval (ast.ReturnStatement (ast.Boolean true)) initial_state
     = Ok (Some (object.ReturnValue 3 (Some TRUE))) (bump initial_state).
Proof.
  split.
  - exact (proj1 (X5_return_statement (ast.Identifier "foobar") initial_state
                    (bump initial_state)
                    (Some (object.Error 3 "identifier not found: foobar")) eq_refl)
             eq_refl).
  - exact (proj2 (X5_return_statement (ast.Boolean true) initial_state initial_state
                    (Some TRUE) eq_refl) eq_refl).
Defined.

(** ** Operators without a rule *)

(** X6.  With the operand of a prefix expression evaluated to an object [o]
    that is not an Error: the prefix [-] on an [o] that is not an Integer
    yields a new Error [unknown operator: -<TYPE>], and a prefix operator
    other than [!] and [-] yields a new Error [unknown operator: <op><TYPE>]. *)
Theorem X6_prefix_unknown_operator (Operator : string) (Right : ast.Node)
    (st st1 : State) (o : object.Object) :
  Eval Right st = Ok (Some o) st1 -> isError (Some o) = false ->
  (object.Type_ o <> object.INTEGER_OBJ ->
   Eval (ast.PrefixExpression "-" Right) st
   = Ok (Some (object.Error (next st1) ("unknown operator: -" +:+ object.Type_ o)))
        (bump st1))
  /\ (Operator <> "!" -> Operator <> "-" ->
      Eval (ast.PrefixExpression Operator Right) st
      = Ok (Some (object.Error (next st1)
                    ("unknown operator: " +:+ Operator +:+ object.Type_ o)))
           (bump st1)).
Proof.
  intros H He. split.
  - intros Ht. cbn [Eval]. rewrite (bind_Ok _ _ _ _ _ H), He.
    unfold evalPrefixExpression, evalMinusPrefixOperator. cbn [String.eqb Ascii.eqb
      Bool.eqb token.BANG token.MINUS].
    simpl. destruct (String.eqb_spec (object.Type_ o) object.INTEGER_OBJ);
      [contradiction|reflexivity].
  - intros Hb Hm. cbn [Eval]. rewrite (bind_Ok _ _ _ _ _ H), He.
    unfold evalPrefixExpression.
    destruct (String.eqb_spec Operator token.BANG); [contradiction|].
    destruct (String.eqb_spec Operator token.MINUS); [contradiction|].
    reflexivity.
Qed.

Lemma X6_prefix_unknown_operator_witness :
  Eval (ast.PrefixExpression "-" (ast.Boolean true)) initial_state
  = Ok (Some (object.Error 3 "unknown operator: -BOOLEAN")) (bump initial_state)
  /\ Eval (ast.PrefixExpression "~" (ast.Boolean true)) initial_state
     = Ok (Some (object.Error 3 "unknown operator: ~BOOLEAN")) (bump initial_state).
Proof.
  split.
  - exact (proj1 (X6_prefix_unknown_operator "-" (ast.Boolean true) initial_state
                    initial_state TRUE eq_refl eq_refl) ltac:(discriminate)).
  - exact (proj2 (X6_prefix_unknown_operator "~" (ast.Boolean true) initial_state
                    initial_state TRUE eq_refl eq_refl)
             ltac:(discriminate) ltac:(discriminate)).
Defined.

(** X7.  When the two operands of an infix expression evaluate to objects of
    the same type tag that is neither INTEGER nor ERROR, every operator other
    than [==] and [!=] yields a new Error
    [unknown operator: <TYPE> <op> <TYPE>]. *)
Theorem X7_infix_unknown_operator (Left Right : ast.Node) (Operator : string)
    (st st1 st2 : State) (l r : object.Object) :
  Eval Left st = Ok (Some l) st1 -> isError (Some l) = false ->
  Eval Right st1 = Ok (Some r) st2 -> isError (Some r) = false ->
  object.Type_ l = object.Type_ r ->
  object.Type_ l <> object.INTEGER_OBJ ->
  Operator <> "==" -> Operator <> "!=" ->
  Eval (ast.InfixExpression Left Operator Right) st
  = Ok (Some (object.Error (next st2)
                ("unknown operator: " +:+ object.Type_ l +:+ " " +:+ Operator
                 +:+ " " +:+ object.Type_ r)))
       (bump st2).
Proof.
  intros HL El HR Er Ht Hi Heq Hne.
  rewrite (Eval_InfixExpression_operands _ _ _ _ _ _ _ _ HL El HR Er).
  unfold evalInfixExpression. rewrite <- Ht, String.eqb_refl.
  destruct (String.eqb_spec (object.Type_ l) object.INTEGER_OBJ); [contradiction|].
  cbn [negb andb].
  destruct (String.eqb_spec Operator token.EQ); [contradiction|].
  destruct (String.eqb_spec Operator token.NOT_EQ); [contradiction|].
  reflexivity.
Qed.

Lemma X7_infix_unknown_operator_witness :
  Eval (ast.InfixExpression (ast.Boolean true) "+" (ast.Boolean false)) initial_state
  = Ok (Some (object.Error 3 "unknown operator: BOOLEAN + BOOLEAN")) (bump initial_state).
Proof.
  exact (X7_infix_unknown_operator (ast.Boolean true) (ast.Boolean false) "+"
           initial_state initial_state initial_state TRUE FALSE
           eq_refl eq_refl eq_refl eq_refl eq_refl
           ltac:(discriminate) ltac:(discriminate) ltac:(discriminate)).
Defined.

(** X8.  On two Integers, an operator that is none of
    [+ - * / == != < >] yields a new Error
    [unknown operator: INTEGER <op> INTEGER]. *)
Theorem X8_integer_unknown_operator (left right : Z) (operator : string) (st : State) :
  operator ∉ integer_operators ->
  evalIntegerInfixExpression left right operator st
  = Ok (Some (object.Error (next st)
                ("unknown operator: INTEGER " +:+ operator +:+ " INTEGER")))
       (bump st).
Proof.
  intros Hop. unfold integer_operators in Hop. unfold evalIntegerInfixExpression.
  repeat match goal with
         | |- context [String.eqb operator ?t] =>
             destruct (String.eqb_spec operator t);
             [exfalso; apply Hop; subst operator; set_solver|]
         end.
  reflexivity.
Qed.

Lemma X8_integer_unknown_operator_witness :
  evalIntegerInfixExpression 5 5 "&&" initial_state
  = Ok (Some (object.Error 3 "unknown operator: INTEGER && INTEGER")) (bump initial_state).
Proof.
  exact (X8_integer_unknown_operator 5 5 "&&" initial_state
           ltac:(unfold integer_operators; apply (bool_decide_unpack _);
                 vm_compute; exact I)).
Defined.

(** ** Division *)

Lemma quot_is_int64 (a b : Z) :
  is_int64 a -> b <> 0%Z -> ~ (a = int64_min /\ b = (-1)%Z) -> is_int64 (Z.quot a b).
Proof.
  unfold is_int64, int64_min, int64_max. intros Ha Hb Hx.
  pose proof (Z.quot_abs a b Hb) as Habs.
  assert (Hq : (0 <= Z.quot (Z.abs a) (Z.abs b) <= Z.abs a)%Z).
  { split.
    - apply Z.quot_pos; lia.
    - rewrite Z.quot_div_nonneg by lia.
      apply Z.div_le_upper_bound; [lia|]. nia. }
  assert (Hmax : Z.quot a b = (2 ^ 63)%Z -> False).
  { intros E. pose proof (Z.quot_rem' a b) as Hd.
    pose proof (Z.rem_bound_abs a b Hb) as Hr. rewrite E in Hd.
    assert (a = (- 2 ^ 63)%Z) by lia.
    assert (b = (-1)%Z) by nia. tauto. }
  assert (Z.quot a b <> (2 ^ 63)%Z) by tauto.
  lia.
Qed.

(** X9.  With the operands of [/] evaluated to the Integers [a] and [b]: a
    zero [b] makes the evaluation panic; -2^63 divided by -1 yields -2^63;
    in every other case of a 64-bit [a] the quotient [v] is the one that
    leaves a remainder [a - b * v] smaller than [b] in absolute value and of
    the sign of [a] (the division truncates toward zero). *)
Theorem X9_integer_division (Left Right : ast.Node) (st st1 st2 : State)
    (p q : nat) (a b : Z) :
  Eval Left st = Ok (Some (object.Integer p a)) st1 ->
  Eval Right st1 = Ok (Some (object.Integer q b)) st2 ->
  let quotient := Eval (ast.InfixExpression Left "/" Right) st in
  (b = 0%Z -> quotient = Panic)
  /\ (a = int64_min -> b = (-1)%Z ->
      quotient = Ok (Some (object.Integer (next st2) int64_min)) (bump st2))
  /\ (is_int64 a -> b <> 0%Z -> ~ (a = int64_min /\ b = (-1)%Z) ->
      exists v, quotient = Ok (Some (object.Integer (next st2) v)) (bump st2)
                /\ (Z.abs (a - b * v) < Z.abs b)%Z /\ (0 <= (a - b * v) * a)%Z).
Proof.
  intros HL HR quotient. subst quotient.
  rewrite (Eval_InfixExpression_Integer _ _ _ _ _ _ _ _ _ _ HL HR).
  unfold evalIntegerInfixExpression. simpl.
  split; [|split].
  - now intros ->.
  - now intros -> ->.
  - intros Ha Hb Hx. destruct (Z.eqb_spec b 0); [contradiction|].
    exists (Z.quot a b). rewrite (wrap64_exact _ (quot_is_int64 _ _ Ha Hb Hx)).
    split; [reflexivity|].
    pose proof (Z.quot_rem' a b) as Hd.
    replace (a - b * Z.quot a b)%Z with (Z.rem a b) by lia.
    split; [now apply Z.rem_bound_abs | now apply Z.rem_sign_mul].
Qed.

Lemma X9_integer_division_witness :
  Eval (ast.InfixExpression (ast.IntegerLiteral 1) "/" (ast.IntegerLiteral 0)) initial_state
  = Panic
  /\ Eval (ast.InfixExpression (ast.IntegerLiteral int64_min) "/"
             (ast.PrefixExpression "-" (ast.IntegerLiteral 1))) initial_state
     = Ok (Some (object.Integer 6 int64_min)) (mkState (object.mkEnvironment ∅) 7)
  /\ exists v,
       Eval (ast.InfixExpression (ast.PrefixExpression "-" (ast.IntegerLiteral 7)) "/"
               (ast.IntegerLiteral 2)) initial_state
       = Ok (Some (object.Integer 6 v)) (mkState (object.mkEnvironment ∅) 7)
       /\ (Z.abs (-7 - 2 * v) < Z.abs 2)%Z /\ (0 <= (-7 - 2 * v) * -7)%Z.
Proof.
  split; [|split].
  - exact (proj1 (X9_integer_division (ast.IntegerLiteral 1) (ast.IntegerLiteral 0)
                    initial_state (bump initial_state) (bump (bump initial_state))
                    3 4 1 0 eq_refl eq_refl) eq_refl).
  - exact (proj1 (proj2 (X9_integer_division (ast.IntegerLiteral int64_min)
                           (ast.PrefixExpression "-" (ast.IntegerLiteral 1))
                           initial_state (bump initial_state)
                           (mkState (object.mkEnvironment ∅) 6)
                           3 5 int64_min (-1) eq_refl eq_refl)) eq_refl eq_refl).
  - refine (proj2 (proj2 (X9_integer_division
                            (ast.PrefixExpression "-" (ast.IntegerLiteral 7))
                            (ast.IntegerLiteral 2)
                            initial_state (mkState (object.mkEnvironment ∅) 5)
                            (mkState (object.mkEnvironment ∅) 6)
                            4 5 (-7) 2 eq_refl eq_refl)) _ _ _).
    + unfold is_int64, int64_min, int64_max. lia.
    + discriminate.
    + intros [H _]. discriminate H.
Defined.

(** ** Panics *)

(** X10.  On two operands that are objects, [evalInfixExpression] panics in
    one case only, an Integer divided by the Integer zero; on an operand that
    is an object, [evalPrefixExpression] never panics. *)
Theorem X10_operator_panics (l r : object.Object) (operator : string) (st : State) :
  (evalInfixExpression (Some l) (Some r) operator st = Panic
   <-> exists p q a, l = object.Integer p a /\ r = object.Integer q 0
                     /\ operator = "/")
  /\ evalPrefixExpression operator (Some l) st <> Panic.
Proof.
  split; [split|].
  - intros H.
    destruct l as [p a| | | |], r as [q b| | | |];
      try (unfold evalInfixExpression in H; simpl in H;
           repeat match type of H with
                  | (if ?c then _ else _) _ = _ => destruct c
                  end; discriminate).
    rewrite evalInfixExpression_Integer in H.
    unfold evalIntegerInfixExpression in H.
    destruct (String.eqb_spec operator token.PLUS); [discriminate|].
    destruct (String.eqb_spec operator token.MINUS); [discriminate|].
    destruct (String.eqb_spec operator token.ASTERISK); [discriminate|].
    destruct (String.eqb_spec operator token.SLASH) as [Hop|].
    + destruct (Z.eqb_spec b 0) as [->|]; [|discriminate]. now exists p, q, a.
    + repeat match type of H with
             | (if ?c then _ else _) _ = _ => destruct c
             end; discriminate.
  - now intros (p & q & a & -> & -> & ->).
  - unfold evalPrefixExpression, evalMinusPrefixOperator.
    destruct (String.eqb operator token.BANG); [discriminate|].
    destruct (String.eqb operator token.MINUS); destruct l; discriminate.
Qed.

(** X11.  An infix expression one of whose operands evaluates to no value at
    all, while neither evaluates to an Error, panics, whatever the operator.
    An [if] whose chosen block is empty is such an operand. *)
Theorem X11_infix_nil_operand (Left Right : ast.Node) (Operator : string)
    (st st1 st2 : State) (l r : option object.Object) :
  Eval Left st = Ok l st1 -> isError l = false ->
  Eval Right st1 = Ok r st2 -> isError r = false ->
  l = None \/ r = None ->
  Eval (ast.InfixExpression Left Operator Right) st = Panic.
Proof.
  intros HL El HR Er Hnil.
  rewrite (Eval_InfixExpression_operands _ _ _ _ _ _ _ _ HL El HR Er).
  destruct Hnil as [-> | ->]; [reflexivity|]. now destruct l.
Qed.

Lemma X11_infix_nil_operand_witness :
  Eval (ast.InfixExpression (ast.IfExpression (ast.Boolean true) [] None) "=="
                            (ast.IntegerLiteral 1)) initial_state
  = Panic.
Proof.
  exact (X11_infix_nil_operand (ast.IfExpression (ast.Boolean true) [] None)
           (ast.IntegerLiteral 1) "==" initial_state initial_state (bump initial_state)
           None (Some (object.Integer 3 1)) eq_refl eq_refl eq_refl eq_refl
           (or_introl eq_refl)).
Defined.

(** X12.  When the operand of a prefix expression evaluates to no value at
    all, [!] yields the FALSE singleton and every other operator panics. *)
Theorem X12_prefix_nil_operand (Operator : string) (Right : ast.Node) (st st1 : State) :
  Eval Right st = Ok None st1 ->
  Eval (ast.PrefixExpression "!" Right) st = Ok (Some FALSE) st1
  /\ (Operator <> "!" -> Eval (ast.PrefixExpression Operator Right) st = Panic).
Proof.
  intros H. split.
  - cbn [Eval]. now rewrite (bind_Ok _ _ _ _ _ H).
  - intros Hop. cbn [Eval]. rewrite (bind_Ok _ _ _ _ _ H). cbn [isError].
    unfold evalPrefixExpression.
    destruct (String.eqb_spec Operator token.BANG); [contradiction|].
    now destruct (String.eqb Operator token.MINUS).
Qed.

Lemma X12_prefix_nil_operand_witness :
  let nothing := ast.IfExpression (ast.Boolean true) [] None in
  Eval (ast.PrefixExpression "!" nothing) initial_state = Ok (Some FALSE) initial_state
  /\ Eval (ast.PrefixExpression "-" nothing) initial_state = Panic.
Proof.
  intros nothing. split.
  - exact (proj1 (X12_prefix_nil_operand "-" nothing initial_state initial_state eq_refl)).
  - exact (proj2 (X12_prefix_nil_operand "-" nothing initial_state initial_state eq_refl)
             ltac:(discriminate)).
Defined.

(** ** [!] and truthiness *)

Lemma isTruthy_nativeBoolToBooleanObject (input : bool) :
  isTruthy (nativeBoolToBooleanObject input) = input.
Proof. now destruct input. Qed.

Lemma evalBangOperator_isTruthy (o : option object.Object) :
  evalBangOperator o = nativeBoolToBooleanObject (negb (isTruthy o)).
Proof.
  destruct o as [[p z|p b|p|p v|p m]|]; try reflexivity.
  - destruct p as [|[|p]]; reflexivity.
  - unfold evalBangOperator, isTruthy. simpl. now destruct (Nat.eqb p 2).
Qed.

(** X13.  With its operand evaluated to [c], not an Error, the prefix [!]
    yields the TRUE singleton when [c] is falsy and the FALSE singleton when
    [c] is truthy; so an [if] on [!c] takes the branches of the [if] on [c]
    the other way round. *)
Theorem X13_bang_negates_truthiness (Condition : ast.Node) (A B : list ast.Node)
    (st st1 : State) (c : option object.Object) :
  Eval Condition st = Ok c st1 -> isError c = false ->
  Eval (ast.PrefixExpression "!" Condition) st
  = Ok (Some (if isTruthy c then FALSE else TRUE)) st1
  /\ Eval (ast.IfExpression (ast.PrefixExpression "!" Condition) A (Some B)) st
     = Eval (ast.IfExpression Condition B (Some A)) st.
Proof.
  intros Hc Ec.
  assert (Hbang : Eval (ast.PrefixExpression "!" Condition) st
                  = Ok (nativeBoolToBooleanObject (negb (isTruthy c))) st1).
  { cbn [Eval]. rewrite (bind_Ok _ _ _ _ _ Hc), Ec.
    unfold evalPrefixExpression. cbn [String.eqb Ascii.eqb Bool.eqb token.BANG].
    cbn - [evalBangOperator]. now rewrite evalBangOperator_isTruthy. }
  split.
  - rewrite Hbang. now destruct (isTruthy c).
  - cbn [Eval] in *. unfold evalIfExpression.
    rewrite (bind_Ok _ _ _ _ _ Hbang), (bind_Ok _ _ _ _ _ Hc).
    rewrite isTruthy_nativeBoolToBooleanObject. now destruct (isTruthy c).
Qed.

Lemma X13_bang_negates_truthiness_witness :
  let ten := [ast.ExpressionStatement (ast.IntegerLiteral 10)] in
  let twenty := [ast.ExpressionStatement (ast.IntegerLiteral 20)] in
  Eval (ast.PrefixExpression "!" (ast.IntegerLiteral 0)) initial_state
  = Ok (Some FALSE) (bump initial_state)
  /\ Eval (ast.IfExpression (ast.PrefixExpression "!" (ast.IntegerLiteral 0))
             ten (Some twenty)) initial_state
     = Eval (ast.IfExpression (ast.IntegerLiteral 0) twenty (Some ten)) initial_state.
Proof.
  intros ten twenty.
  exact (X13_bang_negates_truthiness (ast.IntegerLiteral 0) ten twenty initial_state
           (bump initial_state) (Some (object.Integer 3 0)) eq_refl eq_refl).
Defined.

(** ** Programs, blocks and [return] *)

Lemma evalProgram_loop_unwrap (statements : list ast.Node)
    (result : option object.Object) (st : State) :
  stops result = false ->
  evalProgram_loop Eval statements result st
  = unwrap_return (evalBlockStatement_loop Eval statements result st).
Proof.
  revert result st. induction statements as [|s rest IH]; intros result st Hr.
  - destruct result as [[]|]; simpl in *; try discriminate; reflexivity.
  - cbn [evalProgram_loop evalBlockStatement_loop]. unfold mbind, M_bind.
    destruct (Eval s st) as [r st'|]; [|reflexivity].
    destruct r as [r|]; [|now apply IH].
    rewrite stops_Type.
    destruct r; try reflexivity; now apply IH.
Qed.

(** X14.  A program yields what the block of the same statements yields,
    panic included, except that a ReturnValue is replaced by the value it
    wraps; the final states are the same. *)
Theorem X14_program_unwraps_block (statements : list ast.Node) (st : State) :
  Eval (ast.Program statements) st
  = unwrap_return (Eval (ast.BlockStatement statements) st).
Proof. cbn [Eval]. now apply evalProgram_loop_unwrap. Qed.



(** ** The environment *)

(** X16.  Only a let statement writes the environment: the evaluation of a
    node that holds no let statement leaves the environment exactly as it
    was, whatever the node yields. *)
Theorem X16_only_let_writes (node : ast.Node) (st st' : State)
    (v : option object.Object) :
  has_let node = false -> Eval node st = Ok v st' -> env st' = env st.
Proof. intros Hl H. exact (keeps_env_Eval node Hl st v st' H). Qed.

Lemma X16_only_let_writes_witness :
  let bound := mkState (object.Set_ (env initial_state) "x" (Some TRUE)) 3 in
  let node :=
    ast.IfExpression (ast.Identifier "x")
      [ast.ExpressionStatement
         (ast.InfixExpression (ast.IntegerLiteral 1) "+" (ast.Identifier "y"))]
      None in
  Eval node bound
  = Ok (Some (object.Error 4 "identifier not found: y")) (mkState (env bound) 5)
  /\ env (mkState (env bound) 5) = env bound.
Proof.
  intros bound node. split; [reflexivity|].
  exact (X16_only_let_writes node bound (mkState (env bound) 5)
           (Some (object.Error 4 "identifier not found: y")) eq_refl eq_refl).
Defined.

(** ** Invariants of the evaluation *)

(** A property [I] of the state that allocation keeps, that [Set] keeps when
    the value bound is in [V], and that puts every bound value in [V], with
    [V] holding of what the evaluator makes, is kept by [Eval], whose value
    then is in [V]. *)
Section Eval_invariant.

Variable I : State -> Prop.
Variable V : option object.Object -> Prop.

Hypothesis V_nil : V None.
Hypothesis V_TRUE : V (Some TRUE).
Hypothesis V_FALSE : V (Some FALSE).
Hypothesis V_NULL : V (Some NULL).
Hypothesis V_Integer : forall p z, V (Some (object.Integer p z)).
Hypothesis V_Error : forall p m, V (Some (object.Error p m)).
Hypothesis V_wrap : forall p v, V v -> V (Some (object.ReturnValue p v)).
Hypothesis V_unwrap : forall p v, V (Some (object.ReturnValue p v)) -> V v.
Hypothesis I_bump : forall st, I st -> I (bump st).
Hypothesis I_Set :
  forall st name val,
    I st -> V val -> I (mkState (object.Set_ (env st) name val) (next st)).
Hypothesis I_Get :
  forall st name val, I st -> object.store (env st) !! name = Some val -> V val.

Lemma establishes_ret (v : option object.Object) : V v -> establishes I V (mret v).
Proof. intros Hv st v' st' HI H. inversion H; subst. now split. Qed.

Lemma establishes_panic : establishes I V panic.
Proof. intros st v st' _ H. discriminate. Qed.

Lemma establishes_new (mk : nat -> object.Object) :
  (forall p, V (Some (mk p))) -> establishes I V (new mk).
Proof. intros Hmk st v st' HI H. inversion H; subst. split; [now apply I_bump | apply Hmk]. Qed.

Lemma establishes_bind (m : M (option object.Object))
    (f : option object.Object -> M (option object.Object)) :
  establishes I V m -> (forall a, V a -> establishes I V (f a)) ->
  establishes I V (m ≫= f).
Proof.
  intros Hm Hf st b st' HI H. unfold mbind, M_bind in H.
  destruct (m st) as [a st1|] eqn:E; [|discriminate].
  destruct (Hm _ _ _ HI E) as [HI1 Ha]. exact (Hf a Ha _ _ _ HI1 H).
Qed.

Lemma V_nativeBoolToBooleanObject (input : bool) : V (nativeBoolToBooleanObject input).
Proof. now destruct input. Qed.

Lemma V_evalBangOperator (o : option object.Object) : V (evalBangOperator o).
Proof. rewrite evalBangOperator_isTruthy. apply V_nativeBoolToBooleanObject. Qed.

Create HintDb establishes.
#[local] Hint Resolve establishes_ret establishes_panic establishes_new
  V_nativeBoolToBooleanObject V_evalBangOperator : establishes.
#[local] Hint Extern 1 (establishes _ _ (newError _)) =>
  apply establishes_new; intros; apply V_Error : establishes.

Lemma establishes_evalIntegerInfixExpression (left right : Z) (operator : string) :
  establishes I V (evalIntegerInfixExpression left right operator).
Proof.
  unfold evalIntegerInfixExpression.
  repeat match goal with
         | |- establishes _ _ (if ?b then _ else _) => destruct b
         end; auto with establishes.
Qed.

Lemma establishes_evalInfixExpression (left right : option object.Object)
    (operator : string) :
  establishes I V (evalInfixExpression left right operator).
Proof.
  unfold evalInfixExpression.
  destruct left as [l|], right as [r|]; auto with establishes.
  destruct (negb _); auto with establishes.
  destruct (_ && _).
  - destruct l, r; auto using establishes_evalIntegerInfixExpression with establishes.
  - repeat match goal with
           | |- establishes _ _ (if ?b then _ else _) => destruct b
           end; auto with establishes.
Qed.

Lemma establishes_evalPrefixExpression (operator : string) (o : option object.Object) :
  establishes I V (evalPrefixExpression operator o).
Proof.
  unfold evalPrefixExpression, evalMinusPrefixOperator.
  destruct (String.eqb operator token.BANG); auto with establishes.
  destruct (String.eqb operator token.MINUS); destruct o as [[]|];
    repeat match goal with
           | |- establishes _ _ (if ?b then _ else _) => destruct b
           end; auto with establishes.
Qed.

Lemma establishes_evalProgram_loop (statements : list ast.Node)
    (result : option object.Object) :
  Forall (fun node => establishes I V (Eval node)) statements -> V result ->
  establishes I V (evalProgram_loop Eval statements result).
Proof.
  intros Hall. revert result.
  induction Hall as [|s rest Hs _ IH]; intros result Hr; cbn [evalProgram_loop];
    auto with establishes.
  apply establishes_bind; [exact Hs|].
  intros [[]|] Ha; eauto with establishes.
Qed.

Lemma establishes_evalBlockStatement_loop (statements : list ast.Node)
    (result : option object.Object) :
  Forall (fun node => establishes I V (Eval node)) statements -> V result ->
  establishes I V (evalBlockStatement_loop Eval statements result).
Proof.
  intros Hall. revert result.
  induction Hall as [|s rest Hs _ IH]; intros result Hr;
    cbn [evalBlockStatement_loop]; auto with establishes.
  apply establishes_bind; [exact Hs|].
  intros [r|] Ha; [destruct (_ || _)|]; auto with establishes.
Qed.

Lemma establishes_Eval (node : ast.Node) : establishes I V (Eval node).
Proof.
  induction node using ast.Node_nested_ind; cbn [Eval]; auto with establishes.
  - now apply establishes_evalProgram_loop.
  - now apply establishes_evalBlockStatement_loop.
  - apply establishes_bind; [assumption|]. intros right Hr.
    destruct (isError right);
      auto using establishes_evalPrefixExpression with establishes.
  - unfold evalIfExpression. apply establishes_bind; [assumption|].
    intros condition _. destruct (isTruthy condition).
    + now apply establishes_evalBlockStatement_loop.
    + destruct Alternative as [alternative|]; auto with establishes.
      now apply establishes_evalBlockStatement_loop.
  - apply establishes_bind; [assumption|]. intros left Hl.
    destruct (isError left); auto with establishes.
    apply establishes_bind; [assumption|]. intros right Hr.
    destruct (isError right);
      auto using establishes_evalInfixExpression with establishes.
  - apply establishes_bind; [assumption|]. intros val Hv.
    destruct (isError val); auto with establishes.
  - intros st v st' HI H. unfold mbind, M_bind in H.
    destruct (Eval node st) as [val st1|] eqn:E; [|discriminate].
    destruct (IHnode _ _ _ HI E) as [HI1 Hv].
    destruct (isError val).
    + inversion H; subst. now split.
    + inversion H; subst. split; [now apply I_Set | apply V_nil].
  - intros st v st' HI H. unfold mbind, M_bind, env_Get, object.Get in H.
    destruct (object.store (env st) !! Value) as [val|] eqn:E; simpl in H.
    + inversion H; subst. split; [assumption | now apply (I_Get _ _ _ HI E)].
    + inversion H; subst. split; [now apply I_bump | apply V_Error].
Qed.

End Eval_invariant.

(** X17.  No evaluation unbinds a name: a name that the environment binds
    before a node is evaluated is still bound (to the same or to another
    value) when the evaluation has ended. *)
Theorem X17_bindings_persist (node : ast.Node) (st st' : State)
    (v : option object.Object) (name : string) :
  Eval node st = Ok v st' ->
  is_Some (object.store (env st) !! name) ->
  is_Some (object.store (env st') !! name).
Proof.
  intros H Hb.
  refine (proj1 (establishes_Eval
                   (fun s => is_Some (object.store (env s) !! name)) (fun _ => True)
                   I I I I (fun _ _ => I) (fun _ _ => I) (fun _ _ _ => I) (fun _ _ _ => I)
                   _ _ _ node st v st' Hb H)).
  - now intros s.
  - intros s other val Hs _. cbn [env object.Set_ object.store].
    destruct (decide (other = name)) as [->|Hne].
    + rewrite lookup_insert_eq. eauto.
    + now rewrite lookup_insert_ne.
  - trivial.
Qed.

Lemma X17_bindings_persist_witness :
  let bound := mkState (object.Set_ (env initial_state) "x" (Some TRUE)) 3 in
  is_Some (object.store
             (env (mkState (object.Set_ (env bound) "x" (Some (object.Integer 3 1))) 4))
           !! "x").
Proof.
  intros bound.
  exact (X17_bindings_persist
           (ast.Program [ast.LetStatement "x" (ast.IntegerLiteral 1)])
           bound (mkState (object.Set_ (env bound) "x" (Some (object.Integer 3 1))) 4)
           None "x" eq_refl (ex_intro _ (Some TRUE) eq_refl)).
Defined.

Lemma canonical_Eval (node : ast.Node) :
  establishes (fun st => canonical_env (env st)) canonical_value (Eval node).
Proof.
  apply establishes_Eval; simpl; auto.
  - intros st name val He Hv other val'. cbn [env object.Set_ object.store].
    destruct (decide (name = other)) as [->|Hne].
    + rewrite lookup_insert_eq. now intros [= <-].
    + rewrite lookup_insert_ne by assumption. apply He.
  - intros st name val He Hs. exact (He _ _ Hs).
Qed.

(** X18.  The evaluator makes no Boolean and no Null of its own: when every
    Boolean bound in the environment (also inside a ReturnValue) is the TRUE
    or the FALSE singleton and every Null is the NULL singleton, the same
    holds of the value that a node yields and of the environment it
    leaves. *)
Theorem X18_singletons_only (node : ast.Node) (st st' : State)
    (v : option object.Object) :
  canonical_env (env st) -> Eval node st = Ok v st' ->
  canonical_env (env st') /\ canonical_value v.
Proof. intros He H. exact (canonical_Eval node st v st' He H). Qed.

Lemma canonical_env_initial : canonical_env (env initial_state).
Proof. intros name val H. cbn in H. now rewrite lookup_empty in H. Qed.

Lemma X18_singletons_only_witness :
  canonical_env (object.mkEnvironment ∅)
  /\ canonical_value (Some (object.ReturnValue 5 (Some TRUE))).
Proof.
  exact (X18_singletons_only
           (ast.ReturnStatement
              (ast.InfixExpression (ast.IntegerLiteral 1) "<" (ast.IntegerLiteral 2)))
           initial_state (mkState (object.mkEnvironment ∅) 6)
           (Some (object.ReturnValue 5 (Some TRUE)))
           canonical_env_initial eq_refl).
Defined.

(** X19.  In a state whose environment holds singleton Booleans and Nulls
    only, [==] and [!=] on two operands that evaluate to Booleans compare
    the truth values: comparing the addresses and comparing the values come
    to the same. *)
Theorem X19_boolean_equality_by_value (Left Right : ast.Node) (st st1 st2 : State)
    (p q : nat) (a b : bool) :
  canonical_env (env st) ->
  Eval Left st = Ok (Some (object.Boolean p a)) st1 ->
  Eval Right st1 = Ok (Some (object.Boolean q b)) st2 ->
  Eval (ast.InfixExpression Left "==" Right) st
  = Ok (Some (if Bool.eqb a b then TRUE else FALSE)) st2
  /\ Eval (ast.InfixExpression Left "!=" Right) st
     = Ok (Some (if Bool.eqb a b then FALSE else TRUE)) st2.
Proof.
  intros He HL HR.
  destruct (canonical_Eval Left _ _ _ He HL) as [He1 Ha].
  destruct (canonical_Eval Right _ _ _ He1 HR) as [_ Hb].
  rewrite !(Eval_InfixExpression_operands _ _ _ _ _ _ _ _ HL eq_refl HR eq_refl).
  simpl in Ha, Hb. unfold TRUE, FALSE in Ha, Hb.
  destruct Ha as [[= -> ->] | [= -> ->]], Hb as [[= -> ->] | [= -> ->]];
    split; reflexivity.
Qed.

Lemma X19_boolean_equality_by_value_witness :
  let less := ast.InfixExpression (ast.IntegerLiteral 1) "<" (ast.IntegerLiteral 2) in
  Eval (ast.InfixExpression (ast.Boolean true) "==" less) initial_state
  = Ok (Some TRUE) (bump (bump initial_state))
  /\ Eval (ast.InfixExpression (ast.Boolean true) "!=" less) initial_state
     = Ok (Some FALSE) (bump (bump initial_state)).
Proof.
  intros less.
  exact (X19_boolean_equality_by_value (ast.Boolean true) less initial_state
           initial_state (bump (bump initial_state)) 0 0 true true
           canonical_env_initial eq_refl eq_refl).
Defined.

(** ** Arithmetic laws under wrap-around *)

Lemma wrap64_add_wrap64_r (a c : Z) : wrap64 (a + wrap64 c) = wrap64 (a + c).
Proof.
  unfold wrap64.
  replace (a + ((c + 2 ^ 63) mod 2 ^ 64 - 2 ^ 63) + 2 ^ 63)%Z
    with (a + (c + 2 ^ 63) mod 2 ^ 64)%Z by lia.
  rewrite Zplus_mod_idemp_r. now replace (a + (c + 2 ^ 63))%Z with (a + c + 2 ^ 63)%Z by lia.
Qed.

Lemma wrap64_opp_wrap64 (c : Z) : wrap64 (- wrap64 c) = wrap64 (- c).
Proof.
  unfold wrap64.
  replace (- ((c + 2 ^ 63) mod 2 ^ 64 - 2 ^ 63) + 2 ^ 63)%Z
    with (2 ^ 64 - (c + 2 ^ 63) mod 2 ^ 64)%Z by lia.
  rewrite Zminus_mod_idemp_r.
  replace (2 ^ 64 - (c + 2 ^ 63))%Z with (- c + 2 ^ 63)%Z by lia. reflexivity.
Qed.

Lemma Eval_minus_Integer (Right : ast.Node) (st st1 : State) (p : nat) (a : Z) :
  Eval Right st = Ok (Some (object.Integer p a)) st1 ->
  Eval (ast.PrefixExpression "-" Right) st
  = Ok (Some (object.Integer (next st1) (wrap64 (- a)))) (bump st1).
Proof. intros H. cbn [Eval]. now rewrite (bind_Ok _ _ _ _ _ H). Qed.

(** X20.  With [A] and [B] evaluated to Integers, [A - B] and [A + (-B)]
    yield the same number, overflow or not, and [-(-B)] yields the 64-bit
    number that [B] yields. *)
Theorem X20_subtraction_and_negation (A B : ast.Node) (st st1 st2 : State)
    (p q : nat) (a b : Z) :
  Eval A st = Ok (Some (object.Integer p a)) st1 ->
  Eval B st1 = Ok (Some (object.Integer q b)) st2 ->
  (exists v,
     Eval (ast.InfixExpression A "-" B) st
     = Ok (Some (object.Integer (next st2) v)) (bump st2)
     /\ Eval (ast.InfixExpression A "+" (ast.PrefixExpression "-" B)) st
        = Ok (Some (object.Integer (S (next st2)) v)) (bump (bump st2)))
  /\ (is_int64 b ->
      Eval (ast.PrefixExpression "-" (ast.PrefixExpression "-" B)) st1
      = Ok (Some (object.Integer (S (next st2)) b)) (bump (bump st2))).
Proof.
  intros HA HB. pose proof (Eval_minus_Integer _ _ _ _ _ HB) as HmB. split.
  - exists (wrap64 (a - b)). split.
    + now rewrite (Eval_InfixExpression_Integer _ _ _ _ _ _ _ _ _ _ HA HB).
    + rewrite (Eval_InfixExpression_Integer _ _ _ _ _ _ _ _ _ _ HA HmB).
      unfold evalIntegerInfixExpression. simpl.
      rewrite wrap64_add_wrap64_r. now replace (a + - b)%Z with (a - b)%Z by lia.
  - intros Hb. rewrite (Eval_minus_Integer _ _ _ _ _ HmB).
    rewrite wrap64_opp_wrap64, Z.opp_involutive, (wrap64_exact _ Hb). reflexivity.
Qed.

Lemma X20_subtraction_and_negation_witness :
  (exists v,
     Eval (ast.InfixExpression (ast.IntegerLiteral 0) "-" (ast.IntegerLiteral int64_min))
          initial_state
     = Ok (Some (object.Integer 5 v)) (mkState (object.mkEnvironment ∅) 6)
     /\ Eval (ast.InfixExpression (ast.IntegerLiteral 0) "+"
                (ast.PrefixExpression "-" (ast.IntegerLiteral int64_min))) initial_state
        = Ok (Some (object.Integer 6 v)) (mkState (object.mkEnvironment ∅) 7))
  /\ Eval (ast.PrefixExpression "-"
             (ast.PrefixExpression "-" (ast.IntegerLiteral int64_min)))
          (bump initial_state)
     = Ok (Some (object.Integer 6 int64_min)) (mkState (object.mkEnvironment ∅) 7).
Proof.
  pose proof (X20_subtraction_and_negation (ast.IntegerLiteral 0)
                (ast.IntegerLiteral int64_min) initial_state (bump initial_state)
                (bump (bump initial_state)) 3 4 0 int64_min eq_refl eq_refl) as [H1 H2].
  split; [exact H1|]. apply H2. unfold is_int64, int64_min, int64_max. lia.
Defined.

(** ** [!=] and [==] *)

(** X21.  [L != R] behaves in every respect as [!(L == R)]: the same value,
    Error or panic, and the same final state, for all operands. *)
Theorem X21_not_equal_is_negated_equal (Left Right : ast.Node) (st : State) :
  Eval (ast.InfixExpression Left "!=" Right) st
  = Eval (ast.PrefixExpression "!" (ast.InfixExpression Left "==" Right)) st.
Proof.
  cbn [Eval]. unfold mbind, M_bind.
  destruct (Eval Left st) as [l st1|]; [|reflexivity].
  destruct (isError l) eqn:El; [cbn; now rewrite El|].
  destruct (Eval Right st1) as [r st2|]; [|reflexivity].
  destruct (isError r) eqn:Er; [cbn; now rewrite Er|].
  destruct l as [l|], r as [r|]; try reflexivity.
  destruct l as [p a|p a|p|p a|p a], r as [q b|q b|q|q b|q b];
    try discriminate El; try discriminate Er; try reflexivity.
  - rewrite !evalInfixExpression_Integer. unfold evalIntegerInfixExpression. simpl.
    now destruct (Z.eqb a b).
  - unfold evalInfixExpression. simpl. now destruct (Nat.eqb p q).
  - unfold evalInfixExpression. simpl. now destruct (Nat.eqb p q).
  - unfold evalInfixExpression. simpl. now destruct (Nat.eqb p q).
Qed.

(** ** Evaluations that cannot panic *)

Lemma crash_free_block_eq (statements : list ast.Node) :
  crash_free (ast.BlockStatement statements) = crash_free_block statements
  /\ crash_free (ast.Program statements) = crash_free_block statements.
Proof. split; reflexivity. Qed.

(** Splits every conditional of the goal and gives the outcome reached. *)
Ltac yields_cases :=
  unfold nativeBoolToBooleanObject;
  repeat match goal with
         | |- context [if ?c then _ else _] => destruct c
         end;
  repeat eexists.

Lemma evalPrefixExpression_yields (operator : string) (o : object.Object) (st : State) :
  exists o' st',
    evalPrefixExpression operator (Some o) st = Ok (Some o') st'
    /\ solid o' /\ env st' = env st.
Proof.
  unfold evalPrefixExpression, evalMinusPrefixOperator.
  rewrite evalBangOperator_isTruthy. destruct o; simpl; yields_cases.
Qed.

Lemma evalInfixExpression_yields (l r : object.Object) (operator : string) (st : State) :
  String.eqb operator token.SLASH = false ->
  exists o' st',
    evalInfixExpression (Some l) (Some r) operator st = Ok (Some o') st'
    /\ solid o' /\ env st' = env st.
Proof.
  intros Hop.
  destruct l as [p a| | | |], r as [q b| | | |];
    try solve [unfold evalInfixExpression; simpl; yields_cases].
  rewrite evalInfixExpression_Integer. unfold evalIntegerInfixExpression. rewrite Hop.
  yields_cases.
Qed.

Lemma ends_with_value_true (statements : list ast.Node) (otherwise : bool) :
  ends_with_value statements true = false -> ends_with_value statements otherwise = false.
Proof. destruct statements; simpl; [discriminate | trivial]. Qed.

Lemma solid_env_Set (e : object.Environment) (name : string) (o : object.Object) :
  solid_env e -> solid o -> solid_env (object.Set_ e name (Some o)).
Proof.
  intros He Ho other val. cbn [object.Set_ object.store].
  destruct (decide (name = other)) as [->|Hne].
  - rewrite lookup_insert_eq. now intros [= <-].
  - rewrite lookup_insert_ne by assumption. apply He.
Qed.

Lemma statement_step (s : ast.Node) (st : State) :
  safe_node s -> crash_free_statement s = true -> solid_env (env st) ->
  exists r st',
    Eval s st = Ok r st' /\ solid_env (env st')
    /\ match r with
       | Some o => solid o
       | None => is_let s = true
       end.
Proof.
  intros [Hs Hl] Hc He.
  destruct s;
    try (destruct (Hs Hc st He) as (o & st' & H & Ho & He');
         exists (Some o), st'; now repeat split).
  destruct (Hl Hc st He) as (o & st1 & H & Ho & He1).
  cbn [Eval]. rewrite (bind_Ok _ _ _ _ _ H).
  destruct (isError (Some o)).
  - exists (Some o), st1. now repeat split.
  - eexists None, _. split; [reflexivity|]. split; [|reflexivity].
    now apply solid_env_Set.
Qed.

Lemma evalBlockStatement_loop_yields (statements : list ast.Node) :
  Forall safe_node statements ->
  forallb crash_free_statement statements = true ->
  forall result st,
    solid_env (env st) ->
    match result with Some o => solid o | None => True end ->
    exists r st',
      evalBlockStatement_loop Eval statements result st = Ok r st'
      /\ solid_env (env st')
      /\ match r with
         | Some o => solid o
         | None => ends_with_value statements (has_value result) = false
         end.
Proof.
  intros Hall. induction Hall as [|s rest Hs _ IH]; intros Hc result st He Hr.
  - exists result, st. repeat split; [assumption|]. now destruct result.
  - cbn [forallb] in Hc. apply andb_prop in Hc as [Hcs Hcrest].
    destruct (statement_step s st Hs Hcs He) as (rs & st1 & H & He1 & Hrs).
    cbn [evalBlockStatement_loop ends_with_value]. rewrite (bind_Ok _ _ _ _ _ H).
    destruct rs as [o|].
    + destruct (_ || _).
      * exists (Some o), st1. now repeat split.
      * destruct (IH Hcrest (Some o) st1 He1 Hrs) as (r & st' & Hloop & He' & Hr').
        exists r, st'. repeat split; [assumption..|].
        destruct r; [assumption|]. now apply ends_with_value_true.
    + destruct (IH Hcrest None st1 He1 I) as (r & st' & Hloop & He' & Hr').
      exists r, st'. repeat split; [assumption..|].
      destruct r; [assumption|]. now rewrite Hrs.
Qed.

Lemma evalBlockStatement_yields (statements : list ast.Node) :
  Forall safe_node statements -> crash_free_block statements = true ->
  yields_object (ast.BlockStatement statements).
Proof.
  intros Hall Hc st He. apply andb_prop in Hc as [Hc Hend].
  destruct (evalBlockStatement_loop_yields statements Hall Hc None st He I)
    as (r & st' & H & He' & Hr).
  destruct r as [o|]; [|simpl in Hr; congruence].
  exists o, st'. now repeat split.
Qed.

Lemma evalProgram_yields (statements : list ast.Node) :
  Forall safe_node statements -> crash_free_block statements = true ->
  yields_object (ast.Program statements).
Proof.
  intros Hall Hc st He.
  destruct (evalBlockStatement_yields statements Hall Hc st He)
    as (o & st' & H & Ho & He').
  cbn [Eval] in *. unfold evalProgram. rewrite evalProgram_loop_unwrap by reflexivity.
  unfold evalBlockStatement in H. rewrite H.
  destruct o as [p z|p b|p|p v|p m]; try (eexists _, st'; now repeat split).
  destruct v as [inner|]; [|destruct Ho].
  exists inner, st'. now repeat split.
Qed.

Lemma safe_node_Eval (node : ast.Node) : safe_node node.
Proof.
  induction node
    as [ss Hss|ss Hss|e IHe|z|b|op e IHe|c cons alt IHc Hcons Halt
        |l op r IHl IHr|e IHe|name e IHe|name]
    using ast.Node_nested_ind; (split; [|exact I || idtac]).
  - intros Hc. now apply evalProgram_yields.
  - intros Hc. now apply evalBlockStatement_yields.
  - intros Hc st He. exact (proj1 IHe Hc st He).
  - intros _ st He. eexists _, _. now repeat split.
  - intros _ st He. destruct b; eexists _, _; now repeat split.
  - intros Hc st He. cbn [crash_free] in Hc.
    destruct (proj1 IHe Hc st He) as (o & st1 & H & Ho & He1).
    cbn [Eval]. rewrite (bind_Ok _ _ _ _ _ H).
    destruct (isError (Some o)); [exists o, st1; now repeat split|].
    destruct (evalPrefixExpression_yields op o st1) as (o' & st' & H' & Ho' & Henv).
    exists o', st'. rewrite Henv. now repeat split.
  - intros Hc st He. cbn [crash_free] in Hc.
    apply andb_prop in Hc as [Hc Ha]. apply andb_prop in Hc as [Hc Hb].
    destruct (proj1 IHc Hc st He) as (o & st1 & H & _ & He1).
    cbn [Eval]. unfold evalIfExpression. rewrite (bind_Ok _ _ _ _ _ H).
    destruct (isTruthy (Some o)).
    + exact (evalBlockStatement_yields cons Hcons Hb st1 He1).
    + destruct alt as [alternative|].
      * exact (evalBlockStatement_yields alternative Halt Ha st1 He1).
      * exists NULL, st1. now repeat split.
  - intros Hc st He. cbn [crash_free] in Hc.
    apply andb_prop in Hc as [Hc Hop]. apply andb_prop in Hc as [Hl Hr].
    apply negb_true_iff in Hop.
    destruct (proj1 IHl Hl st He) as (lo & st1 & H1 & Hlo & He1).
    cbn [Eval]. rewrite (bind_Ok _ _ _ _ _ H1).
    destruct (isError (Some lo)); [exists lo, st1; now repeat split|].
    destruct (proj1 IHr Hr st1 He1) as (ro & st2 & H2 & Hro & He2).
    rewrite (bind_Ok _ _ _ _ _ H2).
    destruct (isError (Some ro)); [exists ro, st2; now repeat split|].
    destruct (evalInfixExpression_yields lo ro op st2 Hop)
      as (o' & st' & H' & Ho' & Henv).
    exists o', st'. rewrite Henv. now repeat split.
  - intros Hc st He. cbn [crash_free] in Hc.
    destruct (proj1 IHe Hc st He) as (o & st1 & H & Ho & He1).
    cbn [Eval]. rewrite (bind_Ok _ _ _ _ _ H).
    destruct (isError (Some o)); [exists o, st1; now repeat split|].
    eexists _, _. split; [reflexivity|]. now split.
  - discriminate.
  - exact (proj1 IHe).
  - intros _ st He. cbn [Eval]. unfold mbind, M_bind, env_Get, object.Get.
    destruct (object.store (env st) !! name) as [val|] eqn:E; simpl.
    + pose proof (He _ _ E) as Hv. destruct val as [o|]; [|destruct Hv].
      exists o, st. now repeat split.
    + eexists _, _. now repeat split.
Qed.

(** X22.  A node without [/], whose statement lists all end with a statement
    other than a let statement, cannot make the evaluator panic: from a
    state whose environment binds objects only (no [nil], also inside a
    ReturnValue) it yields an object, an Error possibly, and leaves such a
    state again. *)
Theorem X22_crash_free (node : ast.Node) (st : State) :
  crash_free node = true -> solid_env (env st) ->
  exists o st', Eval node st = Ok (Some o) st' /\ solid o /\ solid_env (env st').
Proof. intros Hc He. exact (proj1 (safe_node_Eval node) Hc st He). Qed.

Lemma solid_env_initial : solid_env (env initial_state).
Proof. intros name val H. cbn in H. now rewrite lookup_empty in H. Qed.

Lemma X22_crash_free_witness :
  let program :=
    ast.Program
      [ast.LetStatement "x" (ast.IntegerLiteral 5);
       ast.ExpressionStatement
         (ast.IfExpression
            (ast.InfixExpression (ast.Identifier "x") ">" (ast.Boolean true))
            [ast.ReturnStatement (ast.Identifier "x")] None)] in
  exists o st',
    Eval program initial_state = Ok (Some o) st' /\ solid o /\ solid_env (env st').
Proof.
  intros program.
  exact (X22_crash_free program initial_state eq_refl solid_env_initial).
Defined.

(** ** One level of unwrapping *)

(** X23.  A program takes one ReturnValue wrapper off and no more: when the
    expression of a top-level return statement itself evaluates to a
    ReturnValue, the program yields that ReturnValue, still wrapped, and the
    statements after it are not evaluated. *)
Theorem X23_program_unwraps_once (ReturnValue : ast.Node) (post : list ast.Node)
    (st st1 : State) (p : nat) (v : option object.Object) :
  Eval ReturnValue st = Ok (Some (object.ReturnValue p v)) st1 ->
  Eval (ast.Program (ast.ReturnStatement ReturnValue :: post)) st
  = Ok (Some (object.ReturnValue p v)) (bump st1).
Proof.
  intros H.
  assert (Hs : Eval (ast.ReturnStatement ReturnValue) st
               = Ok (Some (object.ReturnValue (next st1)
                             (Some (object.ReturnValue p v)))) (bump st1)).
  { cbn [Eval]. now rewrite (bind_Ok _ _ _ _ _ H). }
  cbn [Eval] in *. unfold evalProgram. cbn [evalProgram_loop].
  now rewrite (bind_Ok _ _ _ _ _ Hs).
Qed.

Lemma X23_program_unwraps_once_witness :
  Eval (ast.Program
          [ast.ReturnStatement
             (ast.IfExpression (ast.Boolean true)
                [ast.ReturnStatement (ast.IntegerLiteral 1)] None);
           ast.ExpressionStatement (ast.IntegerLiteral 2)]) initial_state
  = Ok (Some (object.ReturnValue 4 (Some (object.Integer 3 1))))
       (mkState (object.mkEnvironment ∅) 6).
Proof.
  exact (X23_program_unwraps_once
           (ast.IfExpression (ast.Boolean true)
              [ast.ReturnStatement (ast.IntegerLiteral 1)] None)
           [ast.ExpressionStatement (ast.IntegerLiteral 2)]
           initial_state (mkState (object.mkEnvironment ∅) 5) 4
           (Some (object.Integer 3 1)) eq_refl).
Defined.

(** ** A let statement that reads its own name *)

(** X24.  The value expression of a let statement is evaluated before the
    name is bound: with [name] bound to the Integer [a], [let name = name + b]
    rebinds [name] to a new Integer holding [a + b] reduced to 64 bits, and
    yields no value. *)
Theorem X24_let_reads_then_writes (name : string) (st : State) (p : nat) (a b : Z) :
  object.store (env st) !! name = Some (Some (object.Integer p a)) ->
  Eval (ast.LetStatement name
          (ast.InfixExpression (ast.Identifier name) "+" (ast.IntegerLiteral b))) st
  = Ok None
       (mkState (object.Set_ (env st) name
                   (Some (object.Integer (S (next st)) (wrap64 (a + b)))))
                (S (S (next st)))).
Proof.
  intros H.
  assert (Hx : Eval (ast.Identifier name) st = Ok (Some (object.Integer p a)) st).
  { cbn [Eval]. unfold mbind, M_bind, env_Get, object.Get. now rewrite H. }
  assert (Hv : Eval (ast.InfixExpression (ast.Identifier name) "+" (ast.IntegerLiteral b)) st
               = Ok (Some (object.Integer (S (next st)) (wrap64 (a + b))))
                    (bump (bump st))).
  { now rewrite (Eval_InfixExpression_Integer _ _ "+" st st (bump st) p (next st) a b Hx). }
  cbn [Eval] in *. now rewrite (bind_Ok _ _ _ _ _ Hv).
Qed.

Lemma X24_let_reads_then_writes_witness :
  let five := mkState (object.Set_ (env initial_state) "x" (Some (object.Integer 3 5))) 4 in
  Eval (ast.LetStatement "x"
          (ast.InfixExpression (ast.Identifier "x") "+" (ast.IntegerLiteral 1))) five
  = Ok None (mkState (object.Set_ (env five) "x" (Some (object.Integer 5 6))) 6).
Proof.
  intros five.
  exact (X24_let_reads_then_writes "x" five 3 5 1 eq_refl).
Defined.
